(** * LearningPlatform: progress tracking, access policies and provisioning

    Shallow embedding of
    - [src/unnamed/part_000]  the SQL schema: tables, row-level security
      policies and the [handle_new_user] trigger;
    - [src/unnamed/part_001]  [lib/supabase.ts]: the start-up guard on the
      two environment settings and the row interfaces;
    - [src/src/pages/CourseDetail.tsx]  the course page: loading, the derived
      flags and percentage, [toggleLessonCompletion], [markCourseCompleted].

    Timestamps written by [new Date().toISOString()] or by the column default
    [now()] are modelled as the instant they denote (milliseconds, [Z]); the
    client supplies the instant of each call as an argument [now].  Row
    identifiers drawn by [gen_random_uuid()] are supplied as an argument
    [newId]; the primary key makes an insert with a taken identifier fail.
    JavaScript numbers in [calculateProgress] are IEEE-754 binary64 values,
    modelled by Rocq's primitive floats. *)

From Stdlib Require Import Bool ZArith Lia List String.
From Stdlib Require Import Floats.
From Stdlib Require Import Reals Lra.
From Stdlib Require Import Sorted Permutation.
Import ListNotations.

Local Open Scope Z_scope.

(** ** Rows, as the TypeScript interfaces of [lib/supabase.ts] *)

Module Course.
Record t := mk {
    id : string;
    title : string;
    description : string;
    thumbnail_url : string;
    category : string;
    difficulty : string;
    duration_minutes : Z;
    created_at : Z;
    updated_at : Z }.
End Course.

Module Lesson.
Record t := mk {
    id : string;
    course_id : string;
    title : string;
    content : string;
    order_number : Z;
    duration_minutes : Z;
    created_at : Z }.
End Lesson.

Module UserProgress.
  (** [lesson_id : string | null]; [completed_at : string | null]. *)
Record t := mk {
    id : string;
    user_id : string;
    course_id : string;
    lesson_id : option string;
    completed : bool;
    completed_at : option Z;
    created_at : Z;
    updated_at : Z }.
End UserProgress.

Module Profile.
Record t := mk {
    id : string;
    email : string;
    full_name : string;
    created_at : Z;
    updated_at : Z }.
End Profile.

(** JavaScript / SQL equality of a nullable string column with a value:
    [p.lesson_id === lessonId] and [p.lesson_id === null]. *)
Definition opt_str_eqb (a b : option string) : bool :=
  match a, b with
  | Some x, Some y => String.eqb x y
  | None, None => true
  | _, _ => false
  end.

Definition is_null {A} (a : option A) : bool :=
  match a with None => true | Some _ => false end.

(** ** Row-level security ([part_000]) *)

Module Rls.
  (** The role a request runs as, and [auth.uid()] ([NULL] for [anon]). *)
Inductive role := anon | authenticated.

Record caller := { role_of : role; uid : option string }.

Inductive command := SELECT | INSERT | UPDATE | DELETE | ALL.

  (** A permissive policy [CREATE POLICY .. ON tbl FOR cmd TO role
      USING (..) WITH CHECK (..)]; an absent clause is [None]. *)
Record policy (R : Type) := {
    pol_cmd : command;
    pol_role : role;
    pol_using : option (option string -> R -> bool);
    pol_check : option (option string -> R -> bool) }.
  Arguments pol_cmd {R}.  Arguments pol_role {R}.
  Arguments pol_using {R}.  Arguments pol_check {R}.

Definition role_eqb (a b : role) : bool :=
    match a, b with
    | anon, anon | authenticated, authenticated => true
    | _, _ => false
    end.

Definition cmd_applies (c : command) (p : command) : bool :=
    match c, p with
    | _, ALL => true
    | SELECT, SELECT | INSERT, INSERT | UPDATE, UPDATE | DELETE, DELETE => true
    | _, _ => false
    end.

  (** SQL [auth.uid() = col]: [NULL = x] is not true. *)
Definition uid_is (u : option string) (col : string) : bool :=
    match u with Some v => String.eqb v col | None => false end.

Definition applies {R} (c : command) (cl : caller) (p : policy R) : bool :=
    cmd_applies c (pol_cmd p) && role_eqb (role_of cl) (pol_role p).

  (** A row passes [USING] for command [c] when some applicable permissive
      policy's [USING] holds; with no applicable policy, nothing passes. *)
Definition using_ok {R} (pols : list (policy R)) (c : command) (cl : caller)
      (r : R) : bool :=
    existsb (fun p => applies c cl p &&
               match pol_using p with Some u => u (uid cl) r | None => false end)
            pols.

  (** [WITH CHECK] of an applicable policy; a policy without [WITH CHECK]
      checks with its [USING] expression. *)
Definition check_ok {R} (pols : list (policy R)) (c : command) (cl : caller)
      (r : R) : bool :=
    existsb (fun p => applies c cl p &&
               match pol_check p, pol_using p with
               | Some k, _ => k (uid cl) r
               | None, Some u => u (uid cl) r
               | None, None => false
               end)
            pols.

  (** [SELECT * FROM tbl]: the rows the caller can see. *)
Definition select {R} (pols : list (policy R)) (cl : caller) (tbl : list R)
      : list R :=
    filter (using_ok pols SELECT cl) tbl.

  (** [DELETE FROM tbl WHERE w]: only rows passing [USING] are removed. *)
Definition delete {R} (pols : list (policy R)) (cl : caller) (w : R -> bool)
      (tbl : list R) : list R :=
    filter (fun r => negb (w r && using_ok pols DELETE cl r)) tbl.

  (** Policies of [profiles]. *)
Definition profiles_policies : list (policy Profile.t) := [
    (* "Users can view own profile" *)
    {| pol_cmd := SELECT; pol_role := authenticated;
       pol_using := Some (fun u r => uid_is u (Profile.id r));
       pol_check := None |};
    (* "Users can update own profile" *)
    {| pol_cmd := UPDATE; pol_role := authenticated;
       pol_using := Some (fun u r => uid_is u (Profile.id r));
       pol_check := Some (fun u r => uid_is u (Profile.id r)) |};
    (* "Users can insert own profile" *)
    {| pol_cmd := INSERT; pol_role := authenticated;
       pol_using := None;
       pol_check := Some (fun u r => uid_is u (Profile.id r)) |} ].

  (** Policies of [user_progress]. *)
Definition user_progress_policies : list (policy UserProgress.t) := [
    (* "Users can view own progress" *)
    {| pol_cmd := SELECT; pol_role := authenticated;
       pol_using := Some (fun u r => uid_is u (UserProgress.user_id r));
       pol_check := None |};
    (* "Users can insert own progress" *)
    {| pol_cmd := INSERT; pol_role := authenticated;
       pol_using := None;
       pol_check := Some (fun u r => uid_is u (UserProgress.user_id r)) |};
    (* "Users can update own progress" *)
    {| pol_cmd := UPDATE; pol_role := authenticated;
       pol_using := Some (fun u r => uid_is u (UserProgress.user_id r));
       pol_check := Some (fun u r => uid_is u (UserProgress.user_id r)) |} ].

Definition signed_in (u : string) : caller :=
    {| role_of := authenticated; uid := Some u |}.
End Rls.

(** ** The [user_progress] table as the client reaches it *)

Section Store.
  Import UserProgress.

  (** [update(patch).eq('id', x)] run by caller [u]: the rows with that id
      passing [USING] are patched; a patched row failing [WITH CHECK] makes
      the statement fail ([None]). *)
Definition progress_update (u : string) (x : string)
      (patch : UserProgress.t -> UserProgress.t) (tbl : list UserProgress.t)
      : option (list UserProgress.t) :=
    let cl := Rls.signed_in u in
    let hit r := String.eqb (id r) x &&
                 Rls.using_ok Rls.user_progress_policies Rls.UPDATE cl r in
    if forallb (fun r => negb (hit r) ||
                 Rls.check_ok Rls.user_progress_policies Rls.UPDATE cl (patch r))
               tbl
    then Some (map (fun r => if hit r then patch r else r) tbl)
    else None.

  (** [insert(row)] run by caller [u]: [WITH CHECK], then the primary key. *)
Definition progress_insert (u : string) (row : UserProgress.t)
      (tbl : list UserProgress.t) : option (list UserProgress.t) :=
    if Rls.check_ok Rls.user_progress_policies Rls.INSERT (Rls.signed_in u) row
       && negb (existsb (fun r => String.eqb (id r) (id row)) tbl)
    then Some (tbl ++ [row])
    else None.
End Store.

(** ** JavaScript numbers used by [calculateProgress] *)

(** [arr.length] as a Number; exact, arrays being shorter than [2^32]. *)
Definition js_length (n : nat) : float :=
  PrimFloat.of_uint63 (Uint63.of_Z (Z.of_nat n)).

(** [floor (x + 1/2)] for the finite value [x = (-1)^s * m * 2^e]. *)
Definition floor_half (s : bool) (m : positive) (e : Z) : Z :=
  let v := if s then Z.neg m else Z.pos m in
  if 0 <=? e then v * 2 ^ e
  else (2 * v + 2 ^ (- e)) / 2 ^ (1 - e).

(** [Math.round(x)]: the integer closest to [x], ties towards [+oo], i.e.
    [floor (x + 1/2)]; given as a [Z].  It is only applied to finite values
    here; the zeros and the non-finite values are sent to [0]. *)
Definition math_round (x : float) : Z :=
  match Prim2SF x with
  | S754_finite s m e => floor_half s m e
  | _ => 0
  end.

(** ** The course page ([CourseDetail.tsx]) *)

Record Db := mkDb {
  courses : list Course.t;
  lessons_tbl : list Lesson.t;
  user_progress : list UserProgress.t }.

Definition set_user_progress (db : Db) (tbl : list UserProgress.t) : Db :=
  mkDb (courses db) (lessons_tbl db) tbl.

(** The component's state ([useState] hooks). *)
Record State := mkState {
  course : option Course.t;
  lessons : list Lesson.t;
  progress : list UserProgress.t;
  loading : bool;
  error : string }.

Definition initial_state : State := mkState None [] [] true EmptyString.

(** [.order('order_number')]: ascending. *)
Fixpoint insert_by_order (l : Lesson.t) (ls : list Lesson.t) : list Lesson.t :=
  match ls with
  | [] => [l]
  | x :: xs => if Lesson.order_number l <=? Lesson.order_number x
               then l :: x :: xs else x :: insert_by_order l xs
  end.

Definition order_by_number (ls : list Lesson.t) : list Lesson.t :=
  fold_right insert_by_order [] ls.

(** [.maybeSingle()]: no row is [null], two rows are an error. *)
Definition maybe_single {A} (rs : list A) : option (option A) :=
  match rs with
  | [] => Some None
  | [r] => Some (Some r)
  | _ => None
  end.

(** [select('*').eq('user_id', user.id).eq('course_id', courseId)] on
    [user_progress], under its [SELECT] policy. *)
Definition fetch_progress (db : Db) (u : string) (courseId : string)
    : list UserProgress.t :=
  filter (fun p => String.eqb (UserProgress.user_id p) u &&
                   String.eqb (UserProgress.course_id p) courseId)
         (Rls.select Rls.user_progress_policies (Rls.signed_in u)
                     (user_progress db)).

(** [loadCourseData]: the three reads; [courses] and [lessons] errors abort,
    the progress read falls back to [[]]. *)
Definition loadCourseData (db : Db) (user : option string) (courseId : string)
    (st : State) : State :=
  let courseResult :=
    maybe_single (filter (fun c => String.eqb (Course.id c) courseId)
                         (courses db)) in
  let lessonsResult :=
    order_by_number (filter (fun l => String.eqb (Lesson.course_id l) courseId)
                            (lessons_tbl db)) in
  let progressResult :=
    match user with
    | Some u => fetch_progress db u courseId
    | None => []
    end in
  match courseResult with
  | Some c => mkState c lessonsResult progressResult false (error st)
  | None => mkState (course st) (lessons st) (progress st) false
                    "Failed to load course details"
  end.

Section Derived.
  Import UserProgress.

Definition isLessonCompleted (progress : list UserProgress.t)
      (lessonId : string) : bool :=
    existsb (fun p => opt_str_eqb (lesson_id p) (Some lessonId) && completed p)
            progress.

Definition isCourseCompleted (progress : list UserProgress.t) : bool :=
    existsb (fun p => is_null (lesson_id p) && completed p) progress.

Definition calculateProgress (lessons : list Lesson.t)
      (progress : list UserProgress.t) : Z :=
    if Nat.eqb (List.length lessons) 0 then 0 else
    let completedLessons :=
      List.length (filter (fun lesson => isLessonCompleted progress (Lesson.id lesson))
                     lessons) in
    math_round ((js_length completedLessons / js_length (List.length lessons))
                * 100)%float.

  (** The [update] payload of [toggleLessonCompletion]. *)
Definition toggle_patch (isCompleted : bool) (now : Z) (r : UserProgress.t)
      : UserProgress.t :=
    mk (id r) (user_id r) (course_id r) (lesson_id r) (negb isCompleted)
       (if negb isCompleted then Some now else None) (created_at r) now.

  (** The [update] payload of [markCourseCompleted]. *)
Definition complete_patch (now : Z) (r : UserProgress.t) : UserProgress.t :=
    mk (id r) (user_id r) (course_id r) (lesson_id r) true (Some now)
       (created_at r) now.

  (** [toggleLessonCompletion(lessonId)]; the inserted row gets [newId] and
      the column defaults [created_at = updated_at = now()].  A failed write
      is logged and the state is left as it was. *)
Definition toggleLessonCompletion (db : Db) (st : State)
      (user : option string) (courseId : string) (lessonId : string)
      (now : Z) (newId : string) : Db * State :=
    match user with
    | None => (db, st)
    | Some u =>
      let isCompleted := isLessonCompleted (progress st) lessonId in
      let existingProgress :=
        find (fun p => opt_str_eqb (lesson_id p) (Some lessonId)) (progress st) in
      let result :=
        match existingProgress with
        | Some ex =>
          progress_update u (id ex) (toggle_patch isCompleted now)
                          (user_progress db)
        | None =>
          progress_insert u
            (mk newId u courseId (Some lessonId) true (Some now) now now)
            (user_progress db)
        end in
      match result with
      | Some tbl =>
        let db' := set_user_progress db tbl in
        (db', loadCourseData db' user courseId st)
      | None => (db, st)
      end
    end.

  (** [markCourseCompleted()]. *)
Definition markCourseCompleted (db : Db) (st : State)
      (user : option string) (courseId : string) (now : Z) (newId : string)
      : Db * State :=
    match user with
    | None => (db, st)
    | Some u =>
      let courseProgress := find (fun p => is_null (lesson_id p)) (progress st) in
      let result :=
        match courseProgress with
        | Some cp =>
          progress_update u (id cp) (complete_patch now) (user_progress db)
        | None =>
          progress_insert u (mk newId u courseId None true (Some now) now now)
                          (user_progress db)
        end in
      match result with
      | Some tbl =>
        let db' := set_user_progress db tbl in
        (db', loadCourseData db' user courseId st)
      | None => (db, st)
      end
    end.
End Derived.

(** ** Start-up guard ([lib/supabase.ts], lines 3-10) *)

Inductive startup :=
| ConfigError (msg : string)
| ClientError (msg : string)
| ClientCreated (url key : string).

(** [!v] for [v : string | undefined]: [undefined] and [''] are falsy. *)
Definition js_falsy (v : option string) : bool :=
  match v with None => true | Some s => String.eqb s EmptyString end.

(** [createClient(url, key)] of supabase-js: it validates the URL first and
    throws on one its check rejects (a non-empty ['not-a-url'] among them).
    The check is library code outside this repository; [url_ok] stands for
    it. *)
Definition createClient (url_ok : string -> bool) (url key : string) : startup :=
  if url_ok url then ClientCreated url key
  else ClientError "Invalid supabaseUrl".

Definition supabase_init (url_ok : string -> bool)
    (supabaseUrl supabaseAnonKey : option string) : startup :=
  if js_falsy supabaseUrl || js_falsy supabaseAnonKey
  then ConfigError "Missing Supabase environment variables"
  else match supabaseUrl, supabaseAnonKey with
       | Some u, Some k => createClient url_ok u k
       | _, _ => ConfigError "Missing Supabase environment variables"
       end.

(** One instance of the URL check, for concrete runs: the scheme test of
    supabase-js ([/^https?:\/\//i]), which every valid URL passes. *)
Definition ascii_lower (c : Ascii.ascii) : Ascii.ascii :=
  let n := Ascii.nat_of_ascii c in
  if (65 <=? n)%nat && (n <=? 90)%nat then Ascii.ascii_of_nat (n + 32) else c.

Fixpoint lower (s : string) : string :=
  match s with
  | EmptyString => EmptyString
  | String c s' => String (ascii_lower c) (lower s')
  end.

Definition http_scheme_ok (url : string) : bool :=
  String.prefix "http://" (lower url) || String.prefix "https://" (lower url).

(** ** Provisioning trigger ([handle_new_user], [on_auth_user_created]) *)

(** A jsonb value, as far as [->>] tells them apart: a string, JSON [null],
    or any other value, which [->>] renders as its JSON text. *)
Inductive json := JString (s : string) | JNull | JOther (text : string).

Module AuthUser.
  (** A row of [auth.users]; [raw_user_meta_data] is a jsonb object, whose
      keys are unique. *)
Record t := mk {
    id : string;
    email : option string;
    raw_user_meta_data : option (list (string * json)) }.
End AuthUser.

Fixpoint assoc_str {A} (k : string) (o : list (string * A)) : option A :=
  match o with
  | [] => None
  | (k', v) :: o' => if String.eqb k k' then Some v else assoc_str k o'
  end.

(** [obj ->> key]. *)
Definition json_get_text (obj : option (list (string * json))) (key : string)
    : option string :=
  match obj with
  | None => None
  | Some o =>
    match assoc_str key o with
    | Some (JString s) => Some s
    | Some (JOther t) => Some t
    | Some JNull | None => None
    end
  end.

Definition coalesce (a : option string) (d : string) : string :=
  match a with Some s => s | None => d end.

Record AuthDb := mkAuthDb {
  users : list AuthUser.t;
  profiles : list Profile.t }.

(** [handle_new_user()]: [INSERT INTO public.profiles (id, email, full_name)
    VALUES (new.id, new.email, COALESCE(new.raw_user_meta_data->>'full_name',
    ''))], other columns by default; [email] is [NOT NULL] and [id] is the
    primary key, so the insert fails ([None]) otherwise. *)
Definition handle_new_user (ps : list Profile.t) (new : AuthUser.t) (now : Z)
    : option (list Profile.t) :=
  match AuthUser.email new with
  | None => None
  | Some e =>
    if existsb (fun p => String.eqb (Profile.id p) (AuthUser.id new)) ps
    then None
    else Some (ps ++ [Profile.mk (AuthUser.id new) e
                        (coalesce (json_get_text
                                     (AuthUser.raw_user_meta_data new)
                                     "full_name") EmptyString)
                        now now])
  end.

(** [INSERT INTO auth.users]: the primary key, then the [AFTER INSERT ... FOR
    EACH ROW] trigger in the same transaction; a failing trigger aborts the
    statement, so nothing is written. *)
Definition register_user (adb : AuthDb) (new : AuthUser.t) (now : Z)
    : option AuthDb :=
  if existsb (fun u => String.eqb (AuthUser.id u) (AuthUser.id new)) (users adb)
  then None
  else match handle_new_user (profiles adb) new now with
       | Some ps => Some (mkAuthDb (users adb ++ [new]) ps)
       | None => None
       end.

(** ** Reference definitions read off the spec *)

(** The spec's "round(100 x completed / total)", [0] for no lessons, with
    halves rounded up as [Math.round] does: [floor (100 c / n + 1/2)]. *)
Definition spec_percentage (c n : nat) : Z :=
  if Nat.eqb n 0 then 0
  else (200 * Z.of_nat c + Z.of_nat n) / (2 * Z.of_nat n).

(** [calculateProgress] agrees with [spec_percentage] for [n] lessons and
    every count [c <= n] of completed ones. *)
Definition round_check (n : nat) : bool :=
  forallb (fun c => Z.eqb (math_round ((js_length c / js_length n) * 100)%float)
                          (spec_percentage c n))
          (seq 0 (S n)).

(** A run of lesson toggles [(lessonId, now, newId)] on the course page of
    [courseId], each followed by its reload. *)
Fixpoint run_toggles (db : Db) (st : State) (user : option string)
    (courseId : string) (ts : list (string * Z * string)) : Db * State :=
  match ts with
  | [] => (db, st)
  | (lessonId, now, newId) :: ts' =>
    let '(db', st') := toggleLessonCompletion db st user courseId lessonId now newId in
    run_toggles db' st' user courseId ts'
  end.

(** The page's two writes, as a user triggers them. *)
Inductive op :=
| OpToggle (lessonId : string) (now : Z) (newId : string)
| OpMark (now : Z) (newId : string).

(** A run of writes on the course page of [courseId], each followed by its
    reload. *)
Fixpoint run_ops (db : Db) (st : State) (user : option string)
    (courseId : string) (ops : list op) : Db * State :=
  match ops with
  | [] => (db, st)
  | OpToggle lessonId now newId :: ops' =>
    let '(db', st') := toggleLessonCompletion db st user courseId lessonId now newId in
    run_ops db' st' user courseId ops'
  | OpMark now newId :: ops' =>
    let '(db', st') := markCourseCompleted db st user courseId now newId in
    run_ops db' st' user courseId ops'
  end.

(** The primary keys of [courses] and [user_progress]. *)
Definition db_wf (db : Db) : Prop :=
  NoDup (map Course.id (courses db)) /\
  NoDup (map UserProgress.id (user_progress db)).

(** The rows of the caller's page: [user_id] and [course_id] match. *)
Definition in_view (u courseId : string) (p : UserProgress.t) : bool :=
  String.eqb (UserProgress.user_id p) u &&
  String.eqb (UserProgress.course_id p) courseId.

(** At most one record of the fetched set refers to [lessonId]. *)
Definition at_most_one_record (progress : list UserProgress.t)
    (lessonId : string) : Prop :=
  forall p q, In p progress -> In q progress ->
    UserProgress.lesson_id p = Some lessonId ->
    UserProgress.lesson_id q = Some lessonId -> p = q.

(** Patching the rows whose id is [x]. *)
Definition patch_at (x : string) (f : UserProgress.t -> UserProgress.t)
    (r : UserProgress.t) : UserProgress.t :=
  if String.eqb (UserProgress.id r) x then f r else r.

(** The value [m * 2^e] of a float's mantissa and exponent. *)
Definition F2R (m e : Z) : R := (IZR m * powerRZ 2 e)%R.

(** ** A sample store: course [c1] with lessons [l1], [l2]; account [u1] *)

Definition ex_course : Course.t :=
  Course.mk "c1" "Intro" "A first course" EmptyString "General" "beginner" 20 0 0.

Definition ex_lesson1 : Lesson.t := Lesson.mk "l1" "c1" "One" EmptyString 1 10 0.
Definition ex_lesson2 : Lesson.t := Lesson.mk "l2" "c1" "Two" EmptyString 2 10 0.

Definition ex_db (recs : list UserProgress.t) : Db :=
  mkDb [ex_course] [ex_lesson1; ex_lesson2] recs.

(** [u1] has completed [l1] at instant [1]. *)
Definition ex_done : UserProgress.t :=
  UserProgress.mk "p1" "u1" "c1" (Some "l1"%string) true (Some 1) 0 1.

(** Lessons [0 .. k-1] of [c1], with one-character ids, and [u1]'s
    completed records for the first [k] of them. *)
Definition ex_key (i : nat) : string := String (Ascii.ascii_of_nat (48 + i)) EmptyString.

Definition ex_lessons (k : nat) : list Lesson.t :=
  map (fun i => Lesson.mk (ex_key i) "c1" "L" EmptyString (Z.of_nat i) 10 0) (seq 0 k).

Definition ex_records (k : nat) : list UserProgress.t :=
  map (fun i => UserProgress.mk (ex_key i) "u1" "c1" (Some (ex_key i)) true (Some 1) 0 1)
      (seq 0 k).

(** The page of [c1] as [u1] loads it. *)
Definition ex_page (db : Db) : State :=
  loadCourseData db (Some "u1"%string) "c1" initial_state.

Ltac solve_db_wf :=
  split; simpl; repeat constructor; simpl; intuition discriminate.

(** ** The other tables' policies ([part_000]) *)

(** Policies of [courses] and [lessons]: "Anyone can view courses" and
    "Anyone can view lessons", [FOR SELECT TO authenticated USING (true)];
    no policy for any other command. *)
Definition courses_policies : list (Rls.policy Course.t) := [
  {| Rls.pol_cmd := Rls.SELECT; Rls.pol_role := Rls.authenticated;
     Rls.pol_using := Some (fun _ _ => true); Rls.pol_check := None |} ].

Definition lessons_policies : list (Rls.policy Lesson.t) := [
  {| Rls.pol_cmd := Rls.SELECT; Rls.pol_role := Rls.authenticated;
     Rls.pol_using := Some (fun _ _ => true); Rls.pol_check := None |} ].

(** [UPDATE tbl SET .. WHERE w] under row-level security: the rows passing
    [w] and [USING] are patched, the others are skipped; a patched row
    failing [WITH CHECK] makes the statement fail ([None]). *)
Definition table_update {R} (pols : list (Rls.policy R)) (cl : Rls.caller)
    (w : R -> bool) (patch : R -> R) (tbl : list R) : option (list R) :=
  let hit r := w r && Rls.using_ok pols Rls.UPDATE cl r in
  if forallb (fun r => negb (hit r) || Rls.check_ok pols Rls.UPDATE cl (patch r)) tbl
  then Some (map (fun r => if hit r then patch r else r) tbl)
  else None.

(** ** The course page, rendered ([CourseDetail.tsx], lines 133-277) *)

(** One entry of the lesson list: [key={lesson.id}], the heading
    [Lesson {index + 1}: {lesson.title}], the check mark, the content line
    ([lesson.content && ..], absent for ['']) and the duration. *)
Record lesson_row := mkRow {
  row_key : string;
  row_number : nat;
  row_title : string;
  row_completed : bool;
  row_content : option string;
  row_duration : Z }.

(** [lessons.map((lesson, index) => ..)], from index [index]. *)
Fixpoint lesson_rows (progress : list UserProgress.t) (index : nat)
    (ls : list Lesson.t) : list lesson_row :=
  match ls with
  | [] => []
  | lesson :: ls' =>
    mkRow (Lesson.id lesson) (index + 1) (Lesson.title lesson)
          (isLessonCompleted progress (Lesson.id lesson))
          (if String.eqb (Lesson.content lesson) EmptyString then None
           else Some (Lesson.content lesson))
          (Lesson.duration_minutes lesson)
      :: lesson_rows progress (S index) ls'
  end.

(** The course view: header, badge, facts line, progress bar, lesson list
    and the completion button. *)
Record course_view := mkView {
  v_category : string;
  v_completed_badge : bool;
  v_title : string;
  v_description : string;
  v_duration : Z;
  v_lesson_count : nat;
  v_difficulty : string;
  v_percentage : Z;
  v_rows : list lesson_row;
  v_button_disabled : bool;
  v_button_label : string }.

Inductive page :=
| PageSpinner
| PageError (message : string)
| PageCourse (v : course_view).

(** The component's render: the spinner while loading; the error box when
    [error || !course], showing [error || 'Course not found']; otherwise
    the course view. *)
Definition render (st : State) : page :=
  if loading st then PageSpinner else
  match course st with
  | None =>
    PageError (if String.eqb (error st) EmptyString then "Course not found"
               else error st)
  | Some c =>
    if negb (String.eqb (error st) EmptyString) then PageError (error st) else
    let progressPercentage := calculateProgress (lessons st) (progress st) in
    let courseCompleted := isCourseCompleted (progress st) in
    PageCourse
      (mkView (Course.category c) courseCompleted (Course.title c)
              (Course.description c) (Course.duration_minutes c)
              (List.length (lessons st)) (Course.difficulty c)
              progressPercentage (lesson_rows (progress st) 0 (lessons st))
              courseCompleted
              (if courseCompleted then "Course Completed!"
               else "Mark Course as Completed"))
  end.

(** The number of completed lessons of [calculateProgress]
    ([completedLessons]). *)
Definition completed_count (lessons : list Lesson.t)
    (progress : list UserProgress.t) : nat :=
  List.length (filter (fun lesson => isLessonCompleted progress (Lesson.id lesson))
                      lessons).

(** ** The catalogue page ([Home.tsx]) *)

Record HomeState := mkHome {
  home_courses : list Course.t;
  home_loading : bool;
  home_error : string }.

Definition home_initial : HomeState := mkHome [] true EmptyString.

(** [.order('created_at', { ascending: false })]. *)
Fixpoint insert_by_created_desc (c : Course.t) (cs : list Course.t)
    : list Course.t :=
  match cs with
  | [] => [c]
  | x :: xs => if Course.created_at x <=? Course.created_at c
               then c :: x :: xs else x :: insert_by_created_desc c xs
  end.

Definition order_by_created_desc (cs : list Course.t) : list Course.t :=
  fold_right insert_by_created_desc [] cs.

(** [loadCourses]: [select('*')] on [courses], under its policies, by the
    caller of the session. *)
Definition loadCourses (db : Db) (cl : Rls.caller) (hs : HomeState) : HomeState :=
  mkHome (order_by_created_desc (Rls.select courses_policies cl (courses db)))
         false (home_error hs).

Inductive home_view :=
| HomeSpinner
| HomeError (message : string)
| HomeEmpty
| HomeGrid (cards : list Course.t).

(** The render of [Home]: spinner, error, the empty message, or one
    [CourseCard] per course. *)
Definition render_home (hs : HomeState) : home_view :=
  if home_loading hs then HomeSpinner
  else if negb (String.eqb (home_error hs) EmptyString) then HomeError (home_error hs)
  else match home_courses hs with
       | [] => HomeEmpty
       | cs => HomeGrid cs
       end.

(** ** The difficulty badge ([CourseCard.tsx], lines 10-16) *)

(** The JavaScript values a property read on the object literal
    [difficultyColors] can give. *)
Inductive js_value :=
| JsString (s : string)
| JsFunction (name : string)
| JsObject
| JsUndefined.

(** The methods [Object.prototype] supplies to every object literal. *)
Definition object_prototype_methods : list string :=
  ["constructor"; "hasOwnProperty"; "isPrototypeOf"; "propertyIsEnumerable";
   "toLocaleString"; "toString"; "valueOf"; "__defineGetter__";
   "__defineSetter__"; "__lookupGetter__"; "__lookupSetter__"]%string.

Definition green_badge : string := "bg-green-100 text-green-700".
Definition yellow_badge : string := "bg-yellow-100 text-yellow-700".
Definition red_badge : string := "bg-red-100 text-red-700".

(** [difficultyColors[k]]: the three own properties, then the prototype
    chain: [__proto__] is [Object.prototype] itself, the methods are
    functions, anything else is [undefined]. *)
Definition difficultyColors_get (k : string) : js_value :=
  if String.eqb k "beginner" then JsString green_badge
  else if String.eqb k "intermediate" then JsString yellow_badge
  else if String.eqb k "advanced" then JsString red_badge
  else if String.eqb k "__proto__" then JsObject
  else if existsb (String.eqb k) object_prototype_methods then JsFunction k
  else JsUndefined.

Definition js_truthy (v : js_value) : bool :=
  match v with
  | JsString s => negb (String.eqb s EmptyString)
  | JsFunction _ | JsObject => true
  | JsUndefined => false
  end.

(** [difficultyColors[course.difficulty] || difficultyColors.beginner]. *)
Definition difficultyColor (difficulty : string) : js_value :=
  let v := difficultyColors_get difficulty in
  if js_truthy v then v else difficultyColors_get "beginner".

(** ** Screen selection ([App.tsx], [AppContent]) *)

(** [useAuth()]'s [user] and [loading], and the two [useState] hooks. *)
Record AppState := mkApp {
  app_user : option string;
  app_loading : bool;
  showLogin : bool;
  selectedCourseId : option string }.

Inductive screen :=
| ScreenSpinner
| ScreenLogin
| ScreenSignup
| ScreenCourseDetail (courseId : string)
| ScreenHome.

(** [if (selectedCourseId)]: [null] and [''] are falsy. *)
Definition AppContent (s : AppState) : screen :=
  if app_loading s then ScreenSpinner else
  match app_user s with
  | None => if showLogin s then ScreenLogin else ScreenSignup
  | Some _ =>
    match selectedCourseId s with
    | Some c => if String.eqb c EmptyString then ScreenHome else ScreenCourseDetail c
    | None => ScreenHome
    end
  end.

(** What can happen to [AppContent]: the auth context changes, or the user
    presses a control of the current screen: the [onToggle] of [Login] or
    [Signup], a course card of [Home] ([onSelectCourse]), the back button
    of [CourseDetail] ([onBack]). *)
Inductive app_event :=
| AuthChanged (user : option string) (loading : bool)
| LoginToggle
| SignupToggle
| SelectCourse (courseId : string)
| BackPressed.

(** A control that is not on the screen cannot be pressed: the state stays. *)
Definition app_step (s : AppState) (ev : app_event) : AppState :=
  match ev, AppContent s with
  | AuthChanged u l, _ => mkApp u l (showLogin s) (selectedCourseId s)
  | LoginToggle, ScreenLogin => mkApp (app_user s) (app_loading s) false (selectedCourseId s)
  | SignupToggle, ScreenSignup => mkApp (app_user s) (app_loading s) true (selectedCourseId s)
  | SelectCourse c, ScreenHome => mkApp (app_user s) (app_loading s) (showLogin s) (Some c)
  | BackPressed, ScreenCourseDetail _ => mkApp (app_user s) (app_loading s) (showLogin s) None
  | _, _ => s
  end.

Fixpoint app_run (s : AppState) (evs : list app_event) : AppState :=
  match evs with
  | [] => s
  | ev :: evs' => app_run (app_step s ev) evs'
  end.

Definition is_auth_event (ev : app_event) : bool :=
  match ev with AuthChanged _ _ => true | _ => false end.

(** ** Frames of the page's writes *)

(** What a write of the page by [u] keeps: the catalogue, the other
    accounts' rows, and every row's place and id. *)
Definition write_frame (u : string) (db db' : Db) : Prop :=
  courses db' = courses db /\ lessons_tbl db' = lessons_tbl db /\
  filter (fun r => negb (String.eqb (UserProgress.user_id r) u)) (user_progress db') =
  filter (fun r => negb (String.eqb (UserProgress.user_id r) u)) (user_progress db) /\
  exists ext, map UserProgress.id (user_progress db') =
              map UserProgress.id (user_progress db) ++ ext.

(** * Proofs *)

(** ** Derived flags *)

Lemma opt_str_eqb_some (a : option string) (l : string) :
  opt_str_eqb a (Some l) = true <-> a = Some l.
Proof.
  destruct a as [x|]; simpl; split; intro H; try discriminate.
  - apply String.eqb_eq in H; now subst.
  - injection H as ->; apply String.eqb_refl.
Qed.

Lemma is_null_true {A} (a : option A) : is_null a = true <-> a = None.
Proof. destruct a; simpl; split; congruence. Qed.

(** C2: [isLessonCompleted] holds exactly when some fetched record has that
    lesson reference and [completed = true]; [isCourseCompleted] exactly
    when some fetched record has a null lesson reference and
    [completed = true]. *)
Theorem derived_flags_spec (progress : list UserProgress.t) (lessonId : string) :
  (isLessonCompleted progress lessonId = true <->
     exists p, In p progress /\ UserProgress.lesson_id p = Some lessonId /\
               UserProgress.completed p = true) /\
  (isCourseCompleted progress = true <->
     exists p, In p progress /\ UserProgress.lesson_id p = None /\
               UserProgress.completed p = true).
Proof.
  unfold isLessonCompleted, isCourseCompleted; split;
    rewrite existsb_exists; split.
  - intros [p [Hin Hp]]; apply andb_true_iff in Hp as [H1 H2].
    apply opt_str_eqb_some in H1; eauto.
  - intros [p [Hin [H1 H2]]]; exists p; split; [exact Hin|].
    apply andb_true_iff; split; [apply opt_str_eqb_some|]; assumption.
  - intros [p [Hin Hp]]; apply andb_true_iff in Hp as [H1 H2].
    apply is_null_true in H1; eauto.
  - intros [p [Hin [H1 H2]]]; exists p; split; [exact Hin|].
    apply andb_true_iff; split; [apply is_null_true|]; assumption.
Qed.

(** ** Start-up *)

(** C7 (counterexample): with the URL setting present but empty, start-up
    still fails with the configuration error. *)
Lemma supabase_init_empty_url :
  supabase_init http_scheme_ok (Some EmptyString) (Some "anon-key"%string)
  = ConfigError "Missing Supabase environment variables".
Proof. reflexivity. Qed.

(** A present, non-empty URL the client library rejects passes the guard
    and makes start-up fail in [createClient] instead. *)
Lemma supabase_init_bad_url :
  supabase_init http_scheme_ok (Some "not-a-url"%string) (Some "anon-key"%string)
  = ClientError "Invalid supabaseUrl".
Proof. reflexivity. Qed.

(** C7 (amended): for every URL check of the client library, start-up
    raises the configuration error exactly when a setting is absent or the
    empty string, before any client is made; otherwise it calls
    [createClient], which constructs the client exactly when its check
    accepts the URL and raises its own error when it does not. *)
Theorem supabase_init_spec (url_ok : string -> bool)
    (supabaseUrl supabaseAnonKey : option string) :
  ((exists msg, supabase_init url_ok supabaseUrl supabaseAnonKey = ConfigError msg) <->
     js_falsy supabaseUrl = true \/ js_falsy supabaseAnonKey = true) /\
  (forall u k, supabase_init url_ok supabaseUrl supabaseAnonKey = ClientCreated u k <->
     supabaseUrl = Some u /\ supabaseAnonKey = Some k /\ u <> EmptyString /\
     k <> EmptyString /\ url_ok u = true) /\
  ((exists msg, supabase_init url_ok supabaseUrl supabaseAnonKey = ClientError msg) <->
     exists u k, supabaseUrl = Some u /\ supabaseAnonKey = Some k /\ u <> EmptyString /\
       k <> EmptyString /\ url_ok u = false).
Proof.
  unfold supabase_init, createClient, js_falsy.
  destruct supabaseUrl as [u0|], supabaseAnonKey as [k0|];
    try destruct (String.eqb_spec u0 EmptyString) as [Eu|Eu];
    try destruct (String.eqb_spec k0 EmptyString) as [Ek|Ek]; simpl;
    try destruct (url_ok u0) eqn:Ok.
  all: split; [|split].
  all: try (split; [intros [msg H] | intros [H|H]]; try discriminate H; eauto; fail).
  all: try (intros u k; split;
            [ intro H; try discriminate H; injection H; intros; subst; auto
            | intros [H1 [H2 [H3 [H4 H5]]]]; inversion H1; inversion H2; subst;
              first [congruence | reflexivity] ]).
  all: split; [intros [msg H] | intros [u [k [H1 [H2 [H3 [H4 H5]]]]]]];
    try discriminate H; try (injection H1; injection H2; intros; subst; congruence).
  all: try (inversion H1; inversion H2; subst; congruence).
  all: eauto 8.
Qed.

(** ** Row-level security *)

Lemma select_user_progress_iff (a : string) (tbl : list UserProgress.t)
    (r : UserProgress.t) :
  In r (Rls.select Rls.user_progress_policies (Rls.signed_in a) tbl) <->
  In r tbl /\ UserProgress.user_id r = a.
Proof.
  unfold Rls.select; rewrite filter_In; unfold Rls.using_ok; simpl.
  rewrite orb_false_r, String.eqb_eq; split; intros [H1 H2]; auto.
Qed.

Lemma select_profiles_iff (a : string) (tbl : list Profile.t) (r : Profile.t) :
  In r (Rls.select Rls.profiles_policies (Rls.signed_in a) tbl) <->
  In r tbl /\ Profile.id r = a.
Proof.
  unfold Rls.select; rewrite filter_In; unfold Rls.using_ok; simpl.
  rewrite orb_false_r, String.eqb_eq; split; intros [H1 H2]; auto.
Qed.

Lemma delete_user_progress_noop (cl : Rls.caller) (w : UserProgress.t -> bool)
    (tbl : list UserProgress.t) :
  Rls.delete Rls.user_progress_policies cl w tbl = tbl.
Proof.
  unfold Rls.delete, Rls.using_ok; simpl.
  induction tbl as [|r tbl IH]; simpl; [reflexivity|].
  rewrite andb_false_r; simpl; now rewrite IH.
Qed.

(** C8: for two distinct signed-in accounts [a] and [b], a [SELECT] on
    [user_progress] or [profiles] issued by [a] returns exactly the rows
    owned by [a], hence never one owned by [b]; and a [DELETE] on
    [user_progress] removes no row, whoever issues it. *)
Theorem rls_isolation (a b : string) (Hab : a <> b) :
  (forall tbl r, In r (Rls.select Rls.user_progress_policies (Rls.signed_in a) tbl) ->
     UserProgress.user_id r = a /\ UserProgress.user_id r <> b) /\
  (forall tbl r, In r (Rls.select Rls.profiles_policies (Rls.signed_in a) tbl) ->
     Profile.id r = a /\ Profile.id r <> b) /\
  (forall tbl r, In r tbl -> UserProgress.user_id r = a ->
     In r (Rls.select Rls.user_progress_policies (Rls.signed_in a) tbl)) /\
  (forall cl w tbl, Rls.delete Rls.user_progress_policies cl w tbl = tbl).
Proof.
  repeat split.
  - now apply select_user_progress_iff in H.
  - apply select_user_progress_iff in H as [_ ->]; exact Hab.
  - now apply select_profiles_iff in H.
  - apply select_profiles_iff in H as [_ ->]; exact Hab.
  - intros tbl r Hin Hu; apply select_user_progress_iff; auto.
  - intros; apply delete_user_progress_noop.
Qed.

Lemma rls_isolation_witness :
  "alice"%string <> "bob"%string /\
  (forall tbl r, In r (Rls.select Rls.user_progress_policies
                         (Rls.signed_in "alice") tbl) ->
     UserProgress.user_id r = "alice"%string /\
     UserProgress.user_id r <> "bob"%string).
Proof.
  split; [discriminate|].
  apply (rls_isolation "alice" "bob"); discriminate.
Defined.

(** ** Provisioning trigger *)

(** C9: when the registration of [new] commits, the trigger has added
    exactly one profile with [new]'s identifier, carrying [new]'s email and
    the [full_name] metadata text, or [''] when that is absent. *)
Theorem register_user_profile (adb : AuthDb) (new : AuthUser.t) (now : Z)
    (adb' : AuthDb) (H : register_user adb new now = Some adb') :
  exists e,
    AuthUser.email new = Some e /\
    profiles adb' =
      profiles adb ++
      [Profile.mk (AuthUser.id new) e
         (coalesce (json_get_text (AuthUser.raw_user_meta_data new) "full_name")
                   EmptyString) now now] /\
    List.length (filter (fun p => String.eqb (Profile.id p) (AuthUser.id new))
                        (profiles adb')) = 1%nat.
Proof.
  unfold register_user, handle_new_user in H.
  destruct (existsb _ (users adb)); [discriminate|].
  destruct (AuthUser.email new) as [e|]; [|discriminate].
  destruct (existsb _ (profiles adb)) eqn:Hp; [discriminate|].
  injection H as <-; exists e; simpl; repeat split.
  rewrite filter_app; simpl; rewrite String.eqb_refl, length_app; simpl.
  assert (filter (fun p => String.eqb (Profile.id p) (AuthUser.id new))
                 (profiles adb) = []) as ->.
  { induction (profiles adb) as [|p ps IH]; simpl in *; [reflexivity|].
    apply orb_false_iff in Hp as [-> Hp]; auto. }
  reflexivity.
Qed.

(** With the foreign key [profiles.id -> auth.users.id] holding, a
    registration with a fresh identifier and an email always commits. *)
Lemma register_user_succeeds (adb : AuthDb) (new : AuthUser.t) (now : Z) (e : string) :
  (forall p, In p (profiles adb) ->
     exists u, In u (users adb) /\ AuthUser.id u = Profile.id p) ->
  (forall u, In u (users adb) -> AuthUser.id u <> AuthUser.id new) ->
  AuthUser.email new = Some e ->
  exists adb', register_user adb new now = Some adb'.
Proof.
  intros Hfk Hfresh He; unfold register_user, handle_new_user; rewrite He.
  destruct (existsb _ (users adb)) eqn:Hu.
  { apply existsb_exists in Hu as [u [Hin Hu]]; apply String.eqb_eq in Hu.
    exfalso; exact (Hfresh u Hin Hu). }
  destruct (existsb _ (profiles adb)) eqn:Hp; [|eauto].
  apply existsb_exists in Hp as [p [Hin Hp]]; apply String.eqb_eq in Hp.
  destruct (Hfk p Hin) as [u [Hu' Hid]].
  exfalso; apply (Hfresh u Hu'); congruence.
Qed.

Lemma register_user_profile_witness :
  exists adb', register_user (mkAuthDb [] []) 
                 (AuthUser.mk "u1" (Some "a@b.c"%string)
                    (Some [("full_name"%string, JString "Ada")])) 0 = Some adb' /\
  exists e, Some "a@b.c"%string = Some e /\
    profiles adb' = [Profile.mk "u1" e "Ada" 0 0].
Proof.
  eexists; split; [reflexivity|].
  destruct (register_user_profile (mkAuthDb [] [])
              (AuthUser.mk "u1" (Some "a@b.c"%string)
                 (Some [("full_name"%string, JString "Ada")])) 0 _ eq_refl)
    as [e [He [Hp _]]].
  exists e; split; [exact He|]; exact Hp.
Defined.

(** ** Reads and writes of [user_progress] *)

Section Table.
  Import UserProgress.

Lemma using_select_progress (u : string) (p : UserProgress.t) :
    Rls.using_ok Rls.user_progress_policies Rls.SELECT (Rls.signed_in u) p
    = String.eqb u (user_id p).
  Proof. unfold Rls.using_ok; simpl; now rewrite orb_false_r. Qed.

Lemma filter_filter_implied {A} (P Q : A -> bool) (l : list A) :
    (forall x, P x = true -> Q x = true) -> filter P (filter Q l) = filter P l.
  Proof.
    intros HPQ; induction l as [|x l IH]; [reflexivity|].
    cbn [filter]; destruct (P x) eqn:Hp.
    - rewrite (HPQ x Hp); cbn [filter]; rewrite Hp; now rewrite IH.
    - destruct (Q x); cbn [filter]; try rewrite Hp; exact IH.
  Qed.

Lemma fetch_progress_eq (db : Db) (u courseId : string) :
    fetch_progress db u courseId = filter (in_view u courseId) (user_progress db).
  Proof.
    unfold fetch_progress, Rls.select; apply filter_filter_implied.
    intros x Hx; rewrite using_select_progress.
    apply andb_true_iff in Hx as [Hx _]; apply String.eqb_eq in Hx.
    rewrite Hx; apply String.eqb_refl.
  Qed.

Lemma filter_map_comm {A} (P : A -> bool) (f : A -> A) (l : list A) :
    (forall x, P (f x) = P x) -> filter P (map f l) = map f (filter P l).
  Proof.
    intros HP; induction l as [|x l IH]; simpl; [reflexivity|].
    rewrite HP; destruct (P x); simpl; now rewrite IH.
  Qed.

Lemma find_map_comm {A} (P : A -> bool) (f : A -> A) (l : list A) :
    (forall x, P (f x) = P x) -> find P (map f l) = option_map f (find P l).
  Proof.
    intros HP; induction l as [|x l IH]; simpl; [reflexivity|].
    rewrite HP; destruct (P x); [reflexivity|exact IH].
  Qed.

Lemma nodup_id_unique (tbl : list UserProgress.t) (x y : UserProgress.t) :
    NoDup (map id tbl) -> In x tbl -> In y tbl -> id x = id y -> x = y.
  Proof.
    induction tbl as [|r tbl IH]; simpl; [tauto|].
    intros Hnd Hx Hy Hid; inversion Hnd as [|? ? Hnin Hnd']; subst.
    destruct Hx as [<-|Hx], Hy as [<-|Hy]; auto.
    - exfalso; apply Hnin; rewrite Hid; now apply in_map.
    - exfalso; apply Hnin; rewrite <- Hid; now apply in_map.
  Qed.

Lemma progress_update_ok (u x : string) (patch : UserProgress.t -> UserProgress.t)
      (tbl : list UserProgress.t) :
    (forall r, user_id (patch r) = user_id r) ->
    progress_update u x patch tbl =
    Some (map (fun r => if String.eqb (id r) x && String.eqb u (user_id r)
                        then patch r else r) tbl).
  Proof.
    intros Hp; unfold progress_update. unfold Rls.using_ok, Rls.check_ok; simpl.
    replace (forallb _ tbl) with true.
    - f_equal; apply map_ext; intro r; now rewrite orb_false_r.
    - symmetry; apply forallb_forall; intros r _; rewrite Hp.
      destruct (String.eqb (id r) x), (String.eqb u (user_id r)); reflexivity.
  Qed.

Lemma progress_insert_ok (u : string) (row : UserProgress.t)
      (tbl : list UserProgress.t) :
    user_id row = u -> ~ In (id row) (map id tbl) ->
    progress_insert u row tbl = Some (tbl ++ [row]).
  Proof.
    intros Hu Hfresh; unfold progress_insert, Rls.check_ok; simpl.
    rewrite Hu, String.eqb_refl; simpl.
    replace (existsb _ tbl) with false; [reflexivity|].
    symmetry; apply not_true_iff_false; intro H.
    apply existsb_exists in H as [r [Hin Hr]]; apply String.eqb_eq in Hr.
    apply Hfresh; rewrite <- Hr; now apply in_map.
  Qed.

  (** On a table with unique ids, patching the caller's own row [r] by id
      touches [r] only. *)
Lemma update_own_row (u : string) (r : UserProgress.t)
      (patch : UserProgress.t -> UserProgress.t) (tbl : list UserProgress.t) :
    NoDup (map id tbl) -> In r tbl -> user_id r = u ->
    map (fun x => if String.eqb (id x) (id r) && String.eqb u (user_id x)
                  then patch x else x) tbl =
    map (fun x => if String.eqb (id x) (id r) then patch x else x) tbl.
  Proof.
    intros Hnd Hr Hu; apply map_ext_in; intros x Hx.
    destruct (String.eqb_spec (id x) (id r)) as [E|E]; simpl; [|reflexivity].
    rewrite (nodup_id_unique tbl x r Hnd Hx Hr E), Hu, String.eqb_refl.
    reflexivity.
  Qed.

Lemma map_patch_ids (f : UserProgress.t -> UserProgress.t) (tbl : list UserProgress.t) :
    (forall x, id (f x) = id x) -> map id (map f tbl) = map id tbl.
  Proof.
    intros Hf; rewrite map_map; apply map_ext; exact Hf.
  Qed.

Lemma filter_none {A} (P : A -> bool) (l : list A) :
    (forall x, In x l -> P x = false) -> filter P l = [].
  Proof.
    induction l as [|x l IH]; intros H; [reflexivity|]; simpl.
    rewrite (H x (or_introl eq_refl)); apply IH; intros y Hy; apply H; now right.
  Qed.

Lemma filter_key_le1 {A} (f : A -> string) (k : string) (l : list A) :
    NoDup (map f l) -> (List.length (filter (fun x => String.eqb (f x) k) l) <= 1)%nat.
  Proof.
    induction l as [|x l IH]; simpl; intros Hnd; [lia|].
    inversion Hnd as [|? ? Hnin Hnd']; subst.
    destruct (String.eqb_spec (f x) k) as [E|E]; simpl; [|auto].
    rewrite filter_none; [simpl; lia|].
    intros y Hy; apply String.eqb_neq; intro Ey; apply Hnin.
    rewrite E, <- Ey; now apply in_map.
  Qed.

Lemma load_progress (db : Db) (u courseId : string) (st : State) :
    db_wf db ->
    progress (loadCourseData db (Some u) courseId st) = fetch_progress db u courseId.
  Proof.
    intros [Hc _]; unfold loadCourseData.
    pose proof (filter_key_le1 Course.id courseId (courses db) Hc) as Hle.
    destruct (filter _ (courses db)) as [|c [|c' cs]]; simpl in *;
      [reflexivity | reflexivity | lia].
  Qed.
End Table.

(** ** Lesson toggling *)

Section Toggle.
  Import UserProgress.

Lemma toggle_patch_keeps (c : bool) (now : Z) (x : UserProgress.t) :
    id (toggle_patch c now x) = id x /\ user_id (toggle_patch c now x) = user_id x /\
    course_id (toggle_patch c now x) = course_id x /\
    lesson_id (toggle_patch c now x) = lesson_id x.
  Proof. repeat split. Qed.

Lemma complete_patch_keeps (now : Z) (x : UserProgress.t) :
    id (complete_patch now x) = id x /\ user_id (complete_patch now x) = user_id x /\
    course_id (complete_patch now x) = course_id x /\
    lesson_id (complete_patch now x) = lesson_id x.
  Proof. repeat split. Qed.

Lemma patch_at_keeps (x : string) (f : UserProgress.t -> UserProgress.t)
      (Hf : forall r, id (f r) = id r /\ user_id (f r) = user_id r /\
                      course_id (f r) = course_id r /\ lesson_id (f r) = lesson_id r)
      (r : UserProgress.t) :
    id (patch_at x f r) = id r /\ user_id (patch_at x f r) = user_id r /\
    course_id (patch_at x f r) = course_id r /\
    lesson_id (patch_at x f r) = lesson_id r.
  Proof. unfold patch_at; destruct (String.eqb (id r) x); auto. Qed.

Lemma in_view_patch_at (u courseId x : string) (f : UserProgress.t -> UserProgress.t)
      (Hf : forall r, id (f r) = id r /\ user_id (f r) = user_id r /\
                      course_id (f r) = course_id r /\ lesson_id (f r) = lesson_id r)
      (r : UserProgress.t) :
    in_view u courseId (patch_at x f r) = in_view u courseId r.
  Proof.
    unfold in_view; destruct (patch_at_keeps x f Hf r) as [_ [-> [-> _]]].
    reflexivity.
  Qed.

Lemma in_fetch (db : Db) (u courseId : string) (r : UserProgress.t) :
    In r (fetch_progress db u courseId) <->
    In r (user_progress db) /\ user_id r = u /\ course_id r = courseId.
  Proof.
    rewrite fetch_progress_eq, filter_In; unfold in_view.
    rewrite andb_true_iff, !String.eqb_eq; tauto.
  Qed.

Lemma isLessonCompleted_one (V : list UserProgress.t) (lessonId : string)
      (r : UserProgress.t) :
    at_most_one_record V lessonId -> In r V -> lesson_id r = Some lessonId ->
    isLessonCompleted V lessonId = completed r.
  Proof.
    intros Hone Hr Hl; unfold isLessonCompleted.
    destruct (completed r) eqn:Hc.
    - apply existsb_exists; exists r; split; [exact Hr|].
      rewrite Hc, andb_true_r; now apply opt_str_eqb_some.
    - apply not_true_iff_false; intro H.
      apply existsb_exists in H as [p [Hp Hpc]].
      apply andb_true_iff in Hpc as [Hpl Hpc]; apply opt_str_eqb_some in Hpl.
      rewrite (Hone p r Hp Hr Hpl Hl), Hc in Hpc; discriminate.
  Qed.

Lemma isLessonCompleted_none (V : list UserProgress.t) (lessonId : string) :
    (forall r, In r V -> lesson_id r <> Some lessonId) ->
    isLessonCompleted V lessonId = false.
  Proof.
    intros Hn; unfold isLessonCompleted; apply not_true_iff_false; intro H.
    apply existsb_exists in H as [p [Hp Hpc]].
    apply andb_true_iff in Hpc as [Hpl _]; apply opt_str_eqb_some in Hpl.
    exact (Hn p Hp Hpl).
  Qed.

Lemma find_one (V : list UserProgress.t) (lessonId : string) (r : UserProgress.t) :
    at_most_one_record V lessonId -> In r V -> lesson_id r = Some lessonId ->
    find (fun p => opt_str_eqb (lesson_id p) (Some lessonId)) V = Some r.
  Proof.
    intros Hone Hr Hl.
    destruct (find _ V) as [p|] eqn:Hf.
    - apply find_some in Hf as [Hp Hpl]; apply opt_str_eqb_some in Hpl.
      f_equal; exact (Hone p r Hp Hr Hpl Hl).
    - exfalso; apply (find_none _ _ Hf) in Hr.
      rewrite Hl in Hr; simpl in Hr; now rewrite String.eqb_refl in Hr.
  Qed.

Lemma find_lesson_none (V : list UserProgress.t) (lessonId : string) :
    (forall r, In r V -> lesson_id r <> Some lessonId) ->
    find (fun p => opt_str_eqb (lesson_id p) (Some lessonId)) V = None.
  Proof.
    intros Hn; destruct (find _ V) as [p|] eqn:Hf; [|reflexivity].
    apply find_some in Hf as [Hp Hpl]; apply opt_str_eqb_some in Hpl.
    exfalso; exact (Hn p Hp Hpl).
  Qed.

Lemma progress_update_some (u x : string) (f : UserProgress.t -> UserProgress.t)
      (Hf : forall r, id (f r) = id r /\ user_id (f r) = user_id r /\
                      course_id (f r) = course_id r /\ lesson_id (f r) = lesson_id r)
      (tbl tbl' : list UserProgress.t) :
    progress_update u x f tbl = Some tbl' ->
    tbl' = map (fun r => if String.eqb (id r) x && String.eqb u (user_id r)
                         then f r else r) tbl.
  Proof.
    rewrite progress_update_ok; [congruence|]; intro r; apply Hf.
  Qed.

Lemma progress_insert_some (u : string) (row : UserProgress.t)
      (tbl tbl' : list UserProgress.t) :
    progress_insert u row tbl = Some tbl' ->
    tbl' = tbl ++ [row] /\ ~ In (id row) (map id tbl).
  Proof.
    unfold progress_insert; destruct (_ && _) eqn:H; [|discriminate].
    intros E; injection E as <-; split; [reflexivity|].
    apply andb_true_iff in H as [_ H]; apply negb_true_iff in H.
    intro Hin; apply in_map_iff in Hin as [r [Hr Hin]].
    apply not_true_iff_false in H; apply H, existsb_exists.
    exists r; split; [exact Hin|]; rewrite Hr; apply String.eqb_refl.
  Qed.

Lemma nodup_map_hit (u x : string) (f : UserProgress.t -> UserProgress.t)
      (Hf : forall r, id (f r) = id r) (tbl : list UserProgress.t) :
    NoDup (map id tbl) ->
    NoDup (map id (map (fun r => if String.eqb (id r) x && String.eqb u (user_id r)
                                 then f r else r) tbl)).
  Proof.
    intros Hnd; rewrite map_patch_ids; [exact Hnd|].
    intro r; destruct (_ && _); [apply Hf | reflexivity].
  Qed.

Lemma nodup_snoc (tbl : list UserProgress.t) (row : UserProgress.t) :
    NoDup (map id tbl) -> ~ In (id row) (map id tbl) ->
    NoDup (map id (tbl ++ [row])).
  Proof.
    intros Hnd Hn; rewrite map_app; simpl.
    apply NoDup_app; [exact Hnd | constructor; [tauto | constructor] |].
    intros y Hy [<-|[]]; exact (Hn Hy).
  Qed.
End Toggle.

Section ToggleSteps.
  Import UserProgress.

Lemma fetch_patch_at (db : Db) (u courseId x : string)
      (f : UserProgress.t -> UserProgress.t)
      (Hf : forall r, id (f r) = id r /\ user_id (f r) = user_id r /\
                      course_id (f r) = course_id r /\ lesson_id (f r) = lesson_id r) :
    fetch_progress (set_user_progress db (map (patch_at x f) (user_progress db))) u courseId
    = map (patch_at x f) (fetch_progress db u courseId).
  Proof.
    rewrite !fetch_progress_eq; simpl; apply filter_map_comm.
    intro r; apply in_view_patch_at; exact Hf.
  Qed.

Lemma fetch_snoc (db : Db) (u courseId : string) (row : UserProgress.t) :
    user_id row = u -> course_id row = courseId ->
    fetch_progress (set_user_progress db (user_progress db ++ [row])) u courseId
    = fetch_progress db u courseId ++ [row].
  Proof.
    intros Hu Hc; rewrite !fetch_progress_eq; simpl; rewrite filter_app; simpl.
    unfold in_view at 2; rewrite Hu, Hc, !String.eqb_refl; reflexivity.
  Qed.

  (** A successful write by the caller on the store: the resulting table. *)
Lemma own_update (db : Db) (u courseId : string) (r : UserProgress.t)
      (f : UserProgress.t -> UserProgress.t)
      (Hf : forall r, id (f r) = id r /\ user_id (f r) = user_id r /\
                      course_id (f r) = course_id r /\ lesson_id (f r) = lesson_id r) :
    db_wf db -> In r (fetch_progress db u courseId) ->
    progress_update u (id r) f (user_progress db)
    = Some (map (patch_at (id r) f) (user_progress db)).
  Proof.
    intros [_ Hnd] Hr; apply in_fetch in Hr as [Hr [Hu _]].
    rewrite progress_update_ok by (intro; apply Hf); f_equal.
    exact (update_own_row u r f _ Hnd Hr Hu).
  Qed.

Lemma db_wf_patch_at (db : Db) (x : string) (f : UserProgress.t -> UserProgress.t)
      (Hf : forall r, id (f r) = id r) :
    db_wf db -> db_wf (set_user_progress db (map (patch_at x f) (user_progress db))).
  Proof.
    intros [Hc Hnd]; split; [exact Hc|]; simpl.
    rewrite map_patch_ids; [exact Hnd|].
    intro r; unfold patch_at; destruct (String.eqb (id r) x); [apply Hf|reflexivity].
  Qed.

Lemma db_wf_snoc (db : Db) (row : UserProgress.t) :
    db_wf db -> ~ In (id row) (map id (user_progress db)) ->
    db_wf (set_user_progress db (user_progress db ++ [row])).
  Proof.
    intros [Hc Hnd] Hn; split; [exact Hc|]; simpl; now apply nodup_snoc.
  Qed.

  (** Every toggle keeps the primary keys and leaves the page's progress
      equal to what a fresh read of the store returns. *)
Lemma toggle_invariant (db : Db) (st : State) (u courseId lessonId : string)
      (now : Z) (newId : string) (db' : Db) (st' : State) :
    db_wf db -> progress st = fetch_progress db u courseId ->
    toggleLessonCompletion db st (Some u) courseId lessonId now newId = (db', st') ->
    db_wf db' /\ progress st' = fetch_progress db' u courseId.
  Proof.
    intros Hwf Hst H; unfold toggleLessonCompletion in H.
    destruct (find _ (progress st)) as [ex|] eqn:Hf.
    - apply find_some in Hf as [Hex _]; rewrite Hst in Hex.
      rewrite (own_update db u courseId ex) in H
        by (auto; intro; apply toggle_patch_keeps).
      injection H as <- <-.
      assert (Hwf' := db_wf_patch_at db (id ex)
                        (toggle_patch (isLessonCompleted (progress st) lessonId) now)
                        (fun r => eq_refl) Hwf).
      split; [exact Hwf'|]; now apply load_progress.
    - destruct (progress_insert _ _ _) as [tbl|] eqn:Hi.
      + apply progress_insert_some in Hi as [-> Hn]; injection H as <- <-.
        assert (Hwf' := db_wf_snoc db _ Hwf Hn).
        split; [exact Hwf'|]; now apply load_progress.
      + injection H as <- <-; auto.
  Qed.

  (** The toggle of a lesson that has its record [r] on the page. *)
Lemma toggle_existing (db : Db) (st : State) (u courseId lessonId : string)
      (now : Z) (newId : string) (db' : Db) (st' : State) (r : UserProgress.t) :
    db_wf db -> progress st = fetch_progress db u courseId ->
    at_most_one_record (progress st) lessonId ->
    In r (progress st) -> lesson_id r = Some lessonId ->
    toggleLessonCompletion db st (Some u) courseId lessonId now newId = (db', st') ->
    user_progress db' =
      map (patch_at (id r) (toggle_patch (completed r) now)) (user_progress db) /\
    progress st' = map (patch_at (id r) (toggle_patch (completed r) now)) (progress st).
  Proof.
    intros Hwf Hst Hone Hr Hl H.
    pose proof (toggle_invariant _ _ _ _ _ _ _ _ _ Hwf Hst H) as [_ Hst'].
    unfold toggleLessonCompletion in H.
    rewrite (find_one _ _ r Hone Hr Hl), (isLessonCompleted_one _ _ r Hone Hr Hl) in H.
    assert (Hr' := Hr); rewrite Hst in Hr'.
    rewrite (own_update db u courseId r) in H
      by (auto; intro; apply toggle_patch_keeps).
    injection H as <- <-; split; [reflexivity|].
    rewrite Hst', Hst; apply fetch_patch_at; intro; apply toggle_patch_keeps.
  Qed.

  (** The toggle of a lesson with no record on the page. *)
Lemma toggle_absent (db : Db) (st : State) (u courseId lessonId : string)
      (now : Z) (newId : string) (db' : Db) (st' : State) :
    db_wf db -> progress st = fetch_progress db u courseId ->
    (forall r, In r (progress st) -> lesson_id r <> Some lessonId) ->
    ~ In newId (map id (user_progress db)) ->
    toggleLessonCompletion db st (Some u) courseId lessonId now newId = (db', st') ->
    let row := mk newId u courseId (Some lessonId) true (Some now) now now in
    user_progress db' = user_progress db ++ [row] /\
    progress st' = progress st ++ [row].
  Proof.
    intros Hwf Hst Hn Hfresh H row.
    pose proof (toggle_invariant _ _ _ _ _ _ _ _ _ Hwf Hst H) as [_ Hst'].
    unfold toggleLessonCompletion in H; rewrite (find_lesson_none _ _ Hn) in H.
    rewrite progress_insert_ok in H by (auto).
    injection H as <- <-; split; [reflexivity|].
    rewrite Hst', Hst; apply fetch_snoc; reflexivity.
  Qed.
End ToggleSteps.

(** ** Course completion *)

Section CourseSteps.
  Import UserProgress.

Lemma find_app_none {A} (P : A -> bool) (l m : list A) :
    find P l = None -> find P (l ++ m) = find P m.
  Proof.
    induction l as [|x l IH]; simpl; [reflexivity|].
    destruct (P x); [discriminate|exact IH].
  Qed.

Lemma course_flag_of_find (V : list UserProgress.t) (r : UserProgress.t) :
    find (fun p => is_null (lesson_id p)) V = Some r -> completed r = true ->
    isCourseCompleted V = true.
  Proof.
    intros Hf Hc; apply find_some in Hf as [Hin Hn].
    unfold isCourseCompleted; apply existsb_exists; exists r.
    rewrite Hn, Hc; auto.
  Qed.

  (** [markCourseCompleted] on a page read from the store. *)
Lemma mark_step (db : Db) (st : State) (u courseId : string) (now : Z)
      (newId : string) (db' : Db) (st' : State) :
    db_wf db -> progress st = fetch_progress db u courseId ->
    ~ In newId (map id (user_progress db)) ->
    markCourseCompleted db st (Some u) courseId now newId = (db', st') ->
    db_wf db' /\ progress st' = fetch_progress db' u courseId /\
    (forall cp, find (fun p => is_null (lesson_id p)) (progress st) = Some cp ->
       user_progress db' = map (patch_at (id cp) (complete_patch now)) (user_progress db) /\
       progress st' = map (patch_at (id cp) (complete_patch now)) (progress st)) /\
    (find (fun p => is_null (lesson_id p)) (progress st) = None ->
       user_progress db' = user_progress db ++ [mk newId u courseId None true (Some now) now now] /\
       progress st' = progress st ++ [mk newId u courseId None true (Some now) now now]).
  Proof.
    intros Hwf Hst Hfresh H; unfold markCourseCompleted in H.
    destruct (find _ (progress st)) as [cp|] eqn:Hf.
    - assert (Hcp := Hf); apply find_some in Hcp as [Hcp _]; rewrite Hst in Hcp.
      rewrite (own_update db u courseId cp) in H
        by (auto; intro; apply complete_patch_keeps).
      injection H as <- <-.
      assert (Hwf' := db_wf_patch_at db (id cp) (complete_patch now)
                        (fun r => eq_refl) Hwf).
      rewrite load_progress by exact Hwf'.
      split; [exact Hwf'|]; split; [reflexivity|]; split; [|discriminate].
      intros cp' E; injection E as <-; split; [reflexivity|].
      rewrite Hst; apply fetch_patch_at; intro; apply complete_patch_keeps.
    - rewrite progress_insert_ok in H by auto.
      injection H as <- <-.
      assert (Hwf' := db_wf_snoc db (mk newId u courseId None true (Some now) now now)
                        Hwf Hfresh).
      rewrite load_progress by exact Hwf'.
      split; [exact Hwf'|]; split; [reflexivity|]; split; [discriminate|].
      intros _; split; [reflexivity|].
      rewrite Hst; apply fetch_snoc; reflexivity.
  Qed.

  (** After [markCourseCompleted] the page's first null-lesson record is the
      one written, completed at [now]. *)
Lemma mark_course_record (db : Db) (st : State) (u courseId : string) (now : Z)
      (newId : string) (db' : Db) (st' : State) :
    db_wf db -> progress st = fetch_progress db u courseId ->
    ~ In newId (map id (user_progress db)) ->
    markCourseCompleted db st (Some u) courseId now newId = (db', st') ->
    exists r', find (fun p => is_null (lesson_id p)) (progress st') = Some r' /\
      completed r' = true /\ completed_at r' = Some now /\
      (forall cp, find (fun p => is_null (lesson_id p)) (progress st) = Some cp ->
         id r' = id cp) /\
      (find (fun p => is_null (lesson_id p)) (progress st) = None -> id r' = newId).
  Proof.
    intros Hwf Hst Hfresh H.
    destruct (mark_step _ _ _ _ _ _ _ _ Hwf Hst Hfresh H) as [_ [_ [Hs Hn]]].
    destruct (find _ (progress st)) as [cp|] eqn:Hf.
    - destruct (Hs cp eq_refl) as [_ ->].
      exists (complete_patch now cp).
      rewrite find_map_comm, Hf.
      + simpl; unfold patch_at; rewrite String.eqb_refl.
        repeat split; auto; [intros cp' E; now injection E as <- | discriminate].
      + intro x; unfold patch_at; destruct (String.eqb (id x) (id cp)); reflexivity.
    - destruct (Hn eq_refl) as [_ ->].
      eexists; rewrite find_app_none by exact Hf; simpl.
      repeat split; auto; discriminate.
  Qed.

Lemma existsb_map_ext_in {A} (P : A -> bool) (f : A -> A) (l : list A) :
    (forall x, In x l -> P (f x) = P x) -> existsb P (map f l) = existsb P l.
  Proof.
    induction l as [|x l IH]; intros H; simpl; [reflexivity|].
    rewrite (H x (or_introl eq_refl)), IH; [reflexivity|].
    intros y Hy; apply H; now right.
  Qed.

  (** A toggle leaves the course-completed flag of the page as it was. *)
Lemma toggle_course_flag (db : Db) (st : State) (u courseId lessonId : string)
      (now : Z) (newId : string) (db' : Db) (st' : State) :
    db_wf db -> progress st = fetch_progress db u courseId ->
    toggleLessonCompletion db st (Some u) courseId lessonId now newId = (db', st') ->
    isCourseCompleted (progress st') = isCourseCompleted (progress st).
  Proof.
    intros Hwf Hst H.
    pose proof (toggle_invariant _ _ _ _ _ _ _ _ _ Hwf Hst H) as [_ Hst'].
    unfold toggleLessonCompletion in H.
    destruct (find _ (progress st)) as [ex|] eqn:Hf.
    - apply find_some in Hf as [Hex Hl]; apply opt_str_eqb_some in Hl.
      assert (Hex' := Hex); rewrite Hst in Hex'.
      rewrite (own_update db u courseId ex) in H
        by (auto; intro; apply toggle_patch_keeps).
      injection H as <- <-.
      rewrite Hst', Hst, fetch_patch_at by (intro; apply toggle_patch_keeps).
      unfold isCourseCompleted; apply existsb_map_ext_in.
      intros x Hx; unfold patch_at.
      destruct (String.eqb_spec (id x) (id ex)) as [E|E]; [|reflexivity].
      apply in_fetch in Hx as [Hx _]; apply in_fetch in Hex' as [Hex' _].
      rewrite (nodup_id_unique _ x ex (proj2 Hwf) Hx Hex' E); simpl.
      rewrite Hl; reflexivity.
    - destruct (progress_insert _ _ _) as [tbl|] eqn:Hi.
      + apply progress_insert_some in Hi as [-> _]; injection H as <- <-.
        rewrite Hst', Hst, fetch_snoc by reflexivity.
        unfold isCourseCompleted; rewrite existsb_app; simpl.
        now rewrite orb_false_r.
      + injection H as <- <-; reflexivity.
  Qed.
End CourseSteps.

Lemma at_most_one_single (r : UserProgress.t) (lessonId : string) :
  at_most_one_record [r] lessonId.
Proof. intros p q [<-|[]] [<-|[]] _ _; reflexivity. Qed.

(** C3: on a page read from the store (unique ids, at most one record for
    the lesson), [toggleLessonCompletion] either updates the existing
    record [r] in place, flipping [completed], stamping [completed_at] with
    [now] when it becomes true and clearing it otherwise, and refreshing
    [updated_at]; or, with no record, inserts one with [completed = true]
    and [completed_at = now].  The page is then re-read. *)
Theorem toggleLessonCompletion_spec (db : Db) (st : State)
    (u courseId lessonId : string) (now : Z) (newId : string)
    (db' : Db) (st' : State) :
  db_wf db -> progress st = fetch_progress db u courseId ->
  at_most_one_record (progress st) lessonId ->
  toggleLessonCompletion db st (Some u) courseId lessonId now newId = (db', st') ->
  (forall r, In r (progress st) -> UserProgress.lesson_id r = Some lessonId ->
     user_progress db' =
       map (fun x =>
              if String.eqb (UserProgress.id x) (UserProgress.id r)
              then UserProgress.mk (UserProgress.id x) (UserProgress.user_id x)
                     (UserProgress.course_id x) (UserProgress.lesson_id x)
                     (negb (UserProgress.completed r))
                     (if UserProgress.completed r then None else Some now)
                     (UserProgress.created_at x) now
              else x) (user_progress db)) /\
  ((forall r, In r (progress st) -> UserProgress.lesson_id r <> Some lessonId) ->
   ~ In newId (map UserProgress.id (user_progress db)) ->
     user_progress db' =
       user_progress db ++
       [UserProgress.mk newId u courseId (Some lessonId) true (Some now) now now]) /\
  progress st' = fetch_progress db' u courseId.
Proof.
  intros Hwf Hst Hone H; split; [|split].
  - intros r Hr Hl.
    destruct (toggle_existing _ _ _ _ _ _ _ _ _ r Hwf Hst Hone Hr Hl H) as [-> _].
    apply map_ext; intro x; unfold patch_at, toggle_patch.
    destruct (String.eqb _ _); [|reflexivity].
    destruct (UserProgress.completed r); reflexivity.
  - intros Hn Hfresh.
    exact (proj1 (toggle_absent _ _ _ _ _ _ _ _ _ Hwf Hst Hn Hfresh H)).
  - exact (proj2 (toggle_invariant _ _ _ _ _ _ _ _ _ Hwf Hst H)).
Qed.

Lemma toggleLessonCompletion_spec_witness :
  let db := ex_db [ex_done] in
  let res := toggleLessonCompletion db (ex_page db) (Some "u1"%string) "c1" "l1" 5 "p2" in
  progress (snd res) = fetch_progress (fst res) "u1" "c1".
Proof.
  intros db res.
  assert (Hwf : db_wf db) by solve_db_wf.
  assert (Hst : progress (ex_page db) = fetch_progress db "u1" "c1") by reflexivity.
  assert (Hone : at_most_one_record (progress (ex_page db)) "l1").
  { rewrite Hst; apply at_most_one_single. }
  destruct (toggleLessonCompletion_spec db (ex_page db) "u1" "c1" "l1" 5 "p2"
              (fst res) (snd res) Hwf Hst Hone eq_refl) as [_ [_ H]].
  exact H.
Defined.

Section TwoToggles.
  Import UserProgress.

Lemma patch_at_self (f : UserProgress.t -> UserProgress.t) (r : UserProgress.t) :
    patch_at (id r) f r = f r.
  Proof. unfold patch_at; now rewrite String.eqb_refl. Qed.

Lemma at_most_one_map (V : list UserProgress.t) (lessonId : string)
      (g : UserProgress.t -> UserProgress.t)
      (Hg : forall x, lesson_id (g x) = lesson_id x) :
    at_most_one_record V lessonId -> at_most_one_record (map g V) lessonId.
  Proof.
    intros Hone p q Hp Hq Hlp Hlq.
    apply in_map_iff in Hp as [p0 [<- Hp]]; apply in_map_iff in Hq as [q0 [<- Hq]].
    rewrite Hg in Hlp, Hlq; now rewrite (Hone p0 q0 Hp Hq Hlp Hlq).
  Qed.

Lemma map_member (V : list UserProgress.t) (lessonId : string)
      (g : UserProgress.t -> UserProgress.t)
      (Hg : forall x, lesson_id (g x) = lesson_id x) (r : UserProgress.t) :
    at_most_one_record V lessonId -> In r V -> lesson_id r = Some lessonId ->
    forall x, In x (map g V) -> lesson_id x = Some lessonId -> x = g r.
  Proof.
    intros Hone Hr Hl x Hx Hlx; apply in_map_iff in Hx as [x0 [<- Hx]].
    rewrite Hg in Hlx; now rewrite (Hone x0 r Hx Hr Hlx Hl).
  Qed.

Lemma at_most_one_snoc (V : list UserProgress.t) (lessonId : string)
      (row : UserProgress.t) :
    (forall r, In r V -> lesson_id r <> Some lessonId) ->
    at_most_one_record (V ++ [row]) lessonId.
  Proof.
    intros Hn p q Hp Hq Hlp Hlq; apply in_app_iff in Hp, Hq.
    destruct Hp as [Hp|[<-|[]]]; [exfalso; exact (Hn p Hp Hlp)|].
    destruct Hq as [Hq|[<-|[]]]; [exfalso; exact (Hn q Hq Hlq)|reflexivity].
  Qed.

Lemma patch_lesson (c : bool) (now : Z) (x0 : string) (x : UserProgress.t) :
    lesson_id (patch_at x0 (toggle_patch c now) x) = lesson_id x.
  Proof. apply patch_at_keeps; intro; apply toggle_patch_keeps. Qed.
End TwoToggles.

(** C4 (counterexample): [u1] has completed [l1]; two toggles (at instants
    5 and 7) bring the flag back to true, but the record's completion
    timestamp is then the second toggle's instant, not null. *)
Lemma toggle_twice_from_completed :
  let db := ex_db [ex_done] in
  let '(db1, st1) := toggleLessonCompletion db (ex_page db) (Some "u1"%string) "c1" "l1" 5 "p2" in
  let '(db2, st2) := toggleLessonCompletion db1 st1 (Some "u1"%string) "c1" "l1" 7 "p3" in
  isLessonCompleted (progress st2) "l1" = true /\
  map UserProgress.completed_at (progress st2) = [Some 7].
Proof. vm_compute; split; reflexivity. Qed.

(** C4 (amended): on a page read from the store with at most one record for
    the lesson, two toggles return the lesson-completed flag to its original
    value and leave exactly one record for the lesson, whose completion
    timestamp is null when the lesson started incomplete and the second
    toggle's instant when it started complete. *)
Theorem toggle_twice (db : Db) (st : State) (u courseId lessonId : string)
    (now1 now2 : Z) (newId1 newId2 : string) (db1 db2 : Db) (st1 st2 : State) :
  db_wf db -> progress st = fetch_progress db u courseId ->
  at_most_one_record (progress st) lessonId ->
  ~ In newId1 (map UserProgress.id (user_progress db)) ->
  toggleLessonCompletion db st (Some u) courseId lessonId now1 newId1 = (db1, st1) ->
  toggleLessonCompletion db1 st1 (Some u) courseId lessonId now2 newId2 = (db2, st2) ->
  isLessonCompleted (progress st2) lessonId = isLessonCompleted (progress st) lessonId /\
  exists r, In r (progress st2) /\ UserProgress.lesson_id r = Some lessonId /\
    (forall r', In r' (progress st2) -> UserProgress.lesson_id r' = Some lessonId ->
       r' = r) /\
    UserProgress.completed_at r =
      (if isLessonCompleted (progress st) lessonId then Some now2 else None).
Proof.
  intros Hwf Hst Hone Hfresh H1 H2.
  destruct (toggle_invariant _ _ _ _ _ _ _ _ _ Hwf Hst H1) as [Hwf1 Hst1].
  destruct (find (fun p => opt_str_eqb (UserProgress.lesson_id p) (Some lessonId))
                 (progress st)) as [r|] eqn:Hf.
  - apply find_some in Hf as [Hr Hl]; apply opt_str_eqb_some in Hl.
    destruct (toggle_existing _ _ _ _ _ _ _ _ _ r Hwf Hst Hone Hr Hl H1) as [_ Hv1].
    set (g1 := patch_at (UserProgress.id r)
                 (toggle_patch (UserProgress.completed r) now1)) in Hv1.
    set (r1 := g1 r).
    assert (Hone1 : at_most_one_record (progress st1) lessonId)
      by (rewrite Hv1; apply at_most_one_map; [apply patch_lesson|exact Hone]).
    assert (Hr1 : In r1 (progress st1)) by (rewrite Hv1; now apply in_map).
    assert (Hl1 : UserProgress.lesson_id r1 = Some lessonId)
      by (unfold r1, g1; now rewrite patch_lesson).
    destruct (toggle_existing _ _ _ _ _ _ _ _ _ r1 Hwf1 Hst1 Hone1 Hr1 Hl1 H2)
      as [_ Hv2].
    set (g2 := patch_at (UserProgress.id r1)
                 (toggle_patch (UserProgress.completed r1) now2)) in Hv2.
    assert (Hone2 : at_most_one_record (progress st2) lessonId)
      by (rewrite Hv2; apply at_most_one_map; [apply patch_lesson|exact Hone1]).
    assert (Hr2 : In (g2 r1) (progress st2)) by (rewrite Hv2; now apply in_map).
    assert (Hl2 : UserProgress.lesson_id (g2 r1) = Some lessonId)
      by (unfold g2; now rewrite patch_lesson).
    rewrite (isLessonCompleted_one _ _ _ Hone2 Hr2 Hl2),
            (isLessonCompleted_one _ _ _ Hone Hr Hl).
    unfold g2, r1, g1; rewrite !patch_at_self; simpl.
    rewrite negb_involutive; split; [reflexivity|].
    exists (toggle_patch (negb (UserProgress.completed r)) now2
              (toggle_patch (UserProgress.completed r) now1 r)).
    split; [|split; [exact Hl|split]].
    + rewrite Hv2; unfold g2, r1, g1; rewrite !patch_at_self.
      apply in_map_iff; exists (toggle_patch (UserProgress.completed r) now1 r).
      split; [rewrite patch_at_self; reflexivity|].
      pose proof Hr1 as Hr1'; unfold r1, g1 in Hr1'.
      rewrite patch_at_self in Hr1'; exact Hr1'.
    + intros r' Hr' Hl'.
      rewrite (map_member _ _ g2 (patch_lesson _ _ _) r1 Hone1 Hr1 Hl1 r'
                 (eq_ind _ (fun l => In r' l) Hr' _ Hv2) Hl').
      unfold g2, r1, g1; rewrite !patch_at_self; reflexivity.
    + simpl; destruct (UserProgress.completed r); reflexivity.
  - assert (Hn : forall r, In r (progress st) ->
                   UserProgress.lesson_id r <> Some lessonId).
    { intros r Hr Hl; apply (find_none _ _ Hf) in Hr.
      rewrite Hl in Hr; simpl in Hr; now rewrite String.eqb_refl in Hr. }
    destruct (toggle_absent _ _ _ _ _ _ _ _ _ Hwf Hst Hn Hfresh H1) as [_ Hv1].
    set (row := UserProgress.mk newId1 u courseId (Some lessonId) true
                  (Some now1) now1 now1) in Hv1.
    assert (Hone1 : at_most_one_record (progress st1) lessonId)
      by (rewrite Hv1; now apply at_most_one_snoc).
    assert (Hr1 : In row (progress st1))
      by (rewrite Hv1; apply in_app_iff; right; now left).
    destruct (toggle_existing _ _ _ _ _ _ _ _ _ row Hwf1 Hst1 Hone1 Hr1 eq_refl H2)
      as [_ Hv2].
    set (g2 := patch_at (UserProgress.id row)
                 (toggle_patch (UserProgress.completed row) now2)) in Hv2.
    assert (Hone2 : at_most_one_record (progress st2) lessonId)
      by (rewrite Hv2; apply at_most_one_map; [apply patch_lesson|exact Hone1]).
    assert (Hr2 : In (g2 row) (progress st2)) by (rewrite Hv2; now apply in_map).
    assert (Hl2 : UserProgress.lesson_id (g2 row) = Some lessonId)
      by (unfold g2; now rewrite patch_lesson).
    rewrite (isLessonCompleted_one _ _ _ Hone2 Hr2 Hl2), (isLessonCompleted_none _ _ Hn).
    unfold g2 at 1; rewrite patch_at_self; split; [reflexivity|].
    exists (g2 row); split; [exact Hr2|split; [exact Hl2|split]].
    + intros r' Hr' Hl'.
      exact (map_member _ _ g2 (patch_lesson _ _ _) row Hone1 Hr1 eq_refl r'
               (eq_ind _ (fun l => In r' l) Hr' _ Hv2) Hl').
    + unfold g2; rewrite patch_at_self; reflexivity.
Qed.

Lemma toggle_twice_witness :
  let db := ex_db [ex_done] in
  let res1 := toggleLessonCompletion db (ex_page db) (Some "u1"%string) "c1" "l1" 5 "p2" in
  let res2 := toggleLessonCompletion (fst res1) (snd res1) (Some "u1"%string) "c1" "l1" 7 "p3" in
  isLessonCompleted (progress (snd res2)) "l1" = isLessonCompleted (progress (ex_page db)) "l1".
Proof.
  intros db res1 res2.
  assert (Hwf : db_wf db) by solve_db_wf.
  assert (Hst : progress (ex_page db) = fetch_progress db "u1" "c1") by reflexivity.
  assert (Hone : at_most_one_record (progress (ex_page db)) "l1").
  { rewrite Hst; apply at_most_one_single. }
  assert (Hfresh : ~ In "p2"%string (map UserProgress.id (user_progress db))).
  { simpl; intuition discriminate. }
  destruct (toggle_twice db (ex_page db) "u1" "c1" "l1" 5 7 "p2" "p3"
              (fst res1) (fst res2) (snd res1) (snd res2)
              Hwf Hst Hone Hfresh eq_refl eq_refl) as [H _].
  exact H.
Defined.

(** ** Runs of writes and the course-completed flag *)

Section Runs.
  Import UserProgress.

  (** [markCourseCompleted] when the page has a null-lesson record [cp]. *)
Lemma mark_step_found (db : Db) (st : State) (u courseId : string) (now : Z)
      (newId : string) (db' : Db) (st' : State) (cp : UserProgress.t) :
    db_wf db -> progress st = fetch_progress db u courseId ->
    find (fun p => is_null (lesson_id p)) (progress st) = Some cp ->
    markCourseCompleted db st (Some u) courseId now newId = (db', st') ->
    db_wf db' /\ progress st' = fetch_progress db' u courseId /\
    find (fun p => is_null (lesson_id p)) (progress st') = Some (complete_patch now cp).
  Proof.
    intros Hwf Hst Hf H; unfold markCourseCompleted in H; rewrite Hf in H.
    assert (Hcp := Hf); apply find_some in Hcp as [Hcp _]; rewrite Hst in Hcp.
    rewrite (own_update db u courseId cp) in H
      by (auto; intro; apply complete_patch_keeps).
    injection H as <- <-.
    assert (Hwf' := db_wf_patch_at db (id cp) (complete_patch now)
                      (fun r => eq_refl) Hwf).
    rewrite load_progress by exact Hwf'.
    split; [exact Hwf'|]; split; [reflexivity|].
    rewrite fetch_patch_at by (intro; apply complete_patch_keeps).
    rewrite <- Hst, find_map_comm, Hf.
    - simpl; unfold patch_at; rewrite String.eqb_refl; reflexivity.
    - intro x; unfold patch_at; destruct (String.eqb (id x) (id cp)); reflexivity.
  Qed.

  (** A [markCourseCompleted] either fails and leaves the page as it was, or
      sets the course-completed flag. *)
Lemma mark_invariant (db : Db) (st : State) (u courseId : string) (now : Z)
      (newId : string) (db' : Db) (st' : State) :
    db_wf db -> progress st = fetch_progress db u courseId ->
    markCourseCompleted db st (Some u) courseId now newId = (db', st') ->
    db_wf db' /\ progress st' = fetch_progress db' u courseId /\
    (isCourseCompleted (progress st') = true \/ st' = st).
  Proof.
    intros Hwf Hst H.
    destruct (find (fun p => is_null (lesson_id p)) (progress st)) as [cp|] eqn:Hf.
    - destruct (mark_step_found _ _ _ _ _ _ _ _ cp Hwf Hst Hf H) as [Hwf' [Hst' Hf']].
      split; [exact Hwf'|split; [exact Hst'|left]].
      exact (course_flag_of_find _ _ Hf' eq_refl).
    - unfold markCourseCompleted in H; rewrite Hf in H.
      destruct (progress_insert _ _ _) as [tbl|] eqn:Hi.
      + apply progress_insert_some in Hi as [-> Hfr]; injection H as <- <-.
        assert (Hwf' := db_wf_snoc db _ Hwf Hfr).
        rewrite load_progress by exact Hwf'.
        split; [exact Hwf'|split; [reflexivity|left]].
        rewrite fetch_snoc by reflexivity.
        unfold isCourseCompleted; rewrite existsb_app; simpl; apply orb_true_r.
      + injection H as <- <-; auto.
  Qed.

  (** Once set, the course-completed flag survives every run of writes. *)
Lemma run_ops_course_flag (u courseId : string) (ops : list op) :
    forall db st db' st',
    db_wf db -> progress st = fetch_progress db u courseId ->
    isCourseCompleted (progress st) = true ->
    run_ops db st (Some u) courseId ops = (db', st') ->
    db_wf db' /\ progress st' = fetch_progress db' u courseId /\
    isCourseCompleted (progress st') = true.
  Proof.
    induction ops as [|o ops IH]; intros db st db' st' Hwf Hst Hc H;
      cbn [run_ops] in H.
    - injection H as <- <-; auto.
    - destruct o as [lessonId now newId|now newId].
      + destruct (toggleLessonCompletion db st (Some u) courseId lessonId now newId)
          as [db1 st1] eqn:E.
        destruct (toggle_invariant _ _ _ _ _ _ _ _ _ Hwf Hst E) as [Hwf1 Hst1].
        apply (IH db1 st1 db' st' Hwf1 Hst1); [|exact H].
        rewrite (toggle_course_flag _ _ _ _ _ _ _ _ _ Hwf Hst E); exact Hc.
      + destruct (markCourseCompleted db st (Some u) courseId now newId)
          as [db1 st1] eqn:E.
        destruct (mark_invariant _ _ _ _ _ _ _ _ Hwf Hst E) as [Hwf1 [Hst1 Hc1]].
        apply (IH db1 st1 db' st' Hwf1 Hst1); [|exact H].
        destruct Hc1 as [Hc1| ->]; assumption.
  Qed.

  (** Runs of toggles leave the course-completed flag as it was. *)
Lemma run_toggles_course_flag (u courseId : string)
      (ts : list (string * Z * string)) :
    forall db st db' st',
    db_wf db -> progress st = fetch_progress db u courseId ->
    run_toggles db st (Some u) courseId ts = (db', st') ->
    db_wf db' /\ progress st' = fetch_progress db' u courseId /\
    isCourseCompleted (progress st') = isCourseCompleted (progress st).
  Proof.
    induction ts as [|[[lessonId now] newId] ts IH]; intros db st db' st' Hwf Hst H;
      cbn [run_toggles] in H.
    - injection H as <- <-; auto.
    - destruct (toggleLessonCompletion db st (Some u) courseId lessonId now newId)
        as [db1 st1] eqn:E.
      destruct (toggle_invariant _ _ _ _ _ _ _ _ _ Hwf Hst E) as [Hwf1 Hst1].
      destruct (IH db1 st1 db' st' Hwf1 Hst1 H) as [Hwf' [Hst' Hc']].
      split; [exact Hwf'|split; [exact Hst'|]].
      rewrite Hc'; exact (toggle_course_flag _ _ _ _ _ _ _ _ _ Hwf Hst E).
  Qed.
End Runs.

(** C5: on a page read from the store, with a fresh id for a possible insert
    and a clock that does not go back, [markCourseCompleted] updates the
    first null-lesson record of the page to [completed = true],
    [completed_at = now] (or inserts such a record when there is none); a
    second call keeps the flag true and stamps the same record with an
    instant no earlier than the first; and no later run of writes clears the
    course-completed flag. *)
Theorem markCourseCompleted_spec (db : Db) (st : State) (u courseId : string)
    (now1 now2 : Z) (id1 id2 : string) (db1 db2 : Db) (st1 st2 : State) :
  db_wf db -> progress st = fetch_progress db u courseId ->
  ~ In id1 (map UserProgress.id (user_progress db)) ->
  (now1 <= now2)%Z ->
  markCourseCompleted db st (Some u) courseId now1 id1 = (db1, st1) ->
  markCourseCompleted db1 st1 (Some u) courseId now2 id2 = (db2, st2) ->
  (forall cp, find (fun p => is_null (UserProgress.lesson_id p)) (progress st) = Some cp ->
     user_progress db1 =
       map (fun x =>
              if String.eqb (UserProgress.id x) (UserProgress.id cp)
              then UserProgress.mk (UserProgress.id x) (UserProgress.user_id x)
                     (UserProgress.course_id x) (UserProgress.lesson_id x)
                     true (Some now1) (UserProgress.created_at x) now1
              else x) (user_progress db)) /\
  (find (fun p => is_null (UserProgress.lesson_id p)) (progress st) = None ->
     user_progress db1 =
       user_progress db ++ [UserProgress.mk id1 u courseId None true (Some now1) now1 now1]) /\
  isCourseCompleted (progress st1) = true /\
  isCourseCompleted (progress st2) = true /\
  (exists r1 r2 t1 t2,
     find (fun p => is_null (UserProgress.lesson_id p)) (progress st1) = Some r1 /\
     find (fun p => is_null (UserProgress.lesson_id p)) (progress st2) = Some r2 /\
     UserProgress.id r2 = UserProgress.id r1 /\
     UserProgress.completed r2 = true /\
     UserProgress.completed_at r1 = Some t1 /\ UserProgress.completed_at r2 = Some t2 /\
     (t1 <= t2)%Z) /\
  (forall ops db' st', run_ops db2 st2 (Some u) courseId ops = (db', st') ->
     isCourseCompleted (progress st') = true).
Proof.
  intros Hwf Hst Hfresh Hle H1 H2.
  destruct (mark_step _ _ _ _ _ _ _ _ Hwf Hst Hfresh H1) as [Hwf1 [Hst1 [Hs Hn]]].
  destruct (mark_course_record _ _ _ _ _ _ _ _ Hwf Hst Hfresh H1)
    as [r1 [Hf1 [Hc1 [Ht1 _]]]].
  destruct (mark_step_found _ _ _ _ _ _ _ _ r1 Hwf1 Hst1 Hf1 H2) as [Hwf2 [Hst2 Hf2]].
  assert (Hflag2 : isCourseCompleted (progress st2) = true)
    by exact (course_flag_of_find _ _ Hf2 eq_refl).
  split; [|split; [|split; [|split; [exact Hflag2|split]]]].
  - intros cp Hcp; rewrite (proj1 (Hs cp Hcp)).
    apply map_ext; intro x; reflexivity.
  - intros Hcp; exact (proj1 (Hn Hcp)).
  - exact (course_flag_of_find _ _ Hf1 Hc1).
  - exists r1, (complete_patch now2 r1), now1, now2.
    repeat split; auto.
  - intros ops db' st' H.
    exact (proj2 (proj2 (run_ops_course_flag _ _ ops _ _ _ _ Hwf2 Hst2 Hflag2 H))).
Qed.

Lemma markCourseCompleted_spec_witness :
  let db := ex_db [ex_done] in
  let res1 := markCourseCompleted db (ex_page db) (Some "u1"%string) "c1" 5 "p2" in
  let res2 := markCourseCompleted (fst res1) (snd res1) (Some "u1"%string) "c1" 7 "p3" in
  isCourseCompleted (progress (snd res2)) = true.
Proof.
  intros db res1 res2.
  assert (Hwf : db_wf db) by solve_db_wf.
  assert (Hst : progress (ex_page db) = fetch_progress db "u1" "c1") by reflexivity.
  assert (Hfresh : ~ In "p2"%string (map UserProgress.id (user_progress db))).
  { simpl; intuition discriminate. }
  destruct (markCourseCompleted_spec db (ex_page db) "u1" "c1" 5 7 "p2" "p3"
              (fst res1) (fst res2) (snd res1) (snd res2)
              Hwf Hst Hfresh ltac:(lia) eq_refl eq_refl) as [_ [_ [_ [H _]]]].
  exact H.
Defined.

(** C6: on a page read from the store, every run of lesson toggles leaves
    the course-completed flag as it was (so completing every lesson does not
    set it); and once [markCourseCompleted] has run (with a fresh id for a
    possible insert) the flag is true and stays true through every later
    run of lesson toggles, whatever they do to the lessons. *)
Theorem course_flag_independent (db : Db) (st : State) (u courseId : string) :
  db_wf db -> progress st = fetch_progress db u courseId ->
  (forall ts db' st', run_toggles db st (Some u) courseId ts = (db', st') ->
     isCourseCompleted (progress st') = isCourseCompleted (progress st)) /\
  (forall now newId db1 st1 ts db2 st2,
     ~ In newId (map UserProgress.id (user_progress db)) ->
     markCourseCompleted db st (Some u) courseId now newId = (db1, st1) ->
     run_toggles db1 st1 (Some u) courseId ts = (db2, st2) ->
     isCourseCompleted (progress st1) = true /\
     isCourseCompleted (progress st2) = true).
Proof.
  intros Hwf Hst; split.
  - intros ts db' st' H.
    exact (proj2 (proj2 (run_toggles_course_flag _ _ ts _ _ _ _ Hwf Hst H))).
  - intros now newId db1 st1 ts db2 st2 Hfresh H1 H2.
    destruct (mark_step _ _ _ _ _ _ _ _ Hwf Hst Hfresh H1) as [Hwf1 [Hst1 _]].
    destruct (mark_course_record _ _ _ _ _ _ _ _ Hwf Hst Hfresh H1)
      as [r1 [Hf1 [Hc1 _]]].
    assert (Hflag1 := course_flag_of_find _ _ Hf1 Hc1).
    split; [exact Hflag1|].
    rewrite <- Hflag1.
    exact (proj2 (proj2 (run_toggles_course_flag _ _ ts _ _ _ _ Hwf1 Hst1 H2))).
Qed.

Lemma course_flag_independent_witness :
  let db := ex_db [ex_done] in
  let res := run_toggles db (ex_page db) (Some "u1"%string) "c1" [("l2"%string, 5%Z, "p2"%string)] in
  isCourseCompleted (progress (snd res)) = isCourseCompleted (progress (ex_page db)).
Proof.
  intros db res.
  assert (Hwf : db_wf db) by solve_db_wf.
  assert (Hst : progress (ex_page db) = fetch_progress db "u1" "c1") by reflexivity.
  destruct (course_flag_independent db (ex_page db) "u1" "c1" Hwf Hst) as [H _].
  exact (H [("l2"%string, 5%Z, "p2"%string)] (fst res) (snd res) eq_refl).
Defined.

(** ** Completion percentage *)

Lemma round_check_upto_39 : forallb round_check (seq 1 39) = true.
Proof. vm_compute; reflexivity. Qed.

(** C1 (counterexample): 23 of 40 lessons completed is exactly 57.5 %,
    which rounds to 58; the page shows 57, the double nearest to 23/40
    times 100 being just below 57.5. *)
Lemma calculateProgress_23_of_40 :
  List.length (filter (fun l => isLessonCompleted (ex_records 23) (Lesson.id l))
                      (ex_lessons 40)) = 23%nat /\
  List.length (ex_lessons 40) = 40%nat /\
  calculateProgress (ex_lessons 40) (ex_records 23) = 57 /\
  spec_percentage 23 40 = 58.
Proof. vm_compute; repeat split; reflexivity. Qed.

(** C1 (where the code meets the spec): with no lessons the percentage is
    [0]; for a course of at
    most 39 lessons it is [round (100 c / n)] with halves rounded up, [c]
    being the number of lessons with the lesson-completed flag ([Math.round]
    of the double [(c / n) * 100] is off by one for some larger courses, as
    for 23 of 40). *)
Theorem calculateProgress_spec (lessons : list Lesson.t)
    (progress : list UserProgress.t) :
  (lessons = [] -> calculateProgress lessons progress = 0) /\
  ((List.length lessons <= 39)%nat ->
   calculateProgress lessons progress =
   spec_percentage
     (List.length (filter (fun l => isLessonCompleted progress (Lesson.id l)) lessons))
     (List.length lessons)).
Proof.
  split; [intros ->; reflexivity|intros Hn].
  unfold calculateProgress, spec_percentage.
  set (c := List.length (filter _ lessons)).
  assert (Hc : (c <= List.length lessons)%nat) by apply filter_length_le.
  clearbody c.
  destruct (Nat.eqb_spec (List.length lessons) 0) as [E|E]; [reflexivity|].
  assert (Hr : round_check (List.length lessons) = true).
  { apply (proj1 (forallb_forall _ _) round_check_upto_39), in_seq; lia. }
  unfold round_check in Hr; rewrite forallb_forall in Hr.
  specialize (Hr c); rewrite in_seq in Hr.
  apply Z.eqb_eq in Hr; [|lia].
  rewrite Hr; unfold spec_percentage.
  destruct (Nat.eqb_spec (List.length lessons) 0) as [E'|E']; [contradiction|reflexivity].
Qed.

Lemma calculateProgress_spec_witness :
  (List.length (ex_lessons 2) <= 39)%nat /\
  calculateProgress (ex_lessons 2) (ex_records 1) = spec_percentage 1 2.
Proof.
  split; [vm_compute; lia|].
  exact (proj2 (calculateProgress_spec (ex_lessons 2) (ex_records 1)) ltac:(vm_compute; lia)).
Defined.

(** ** IEEE-754 facts for [calculateProgress] *)

Section FloatFacts.
Lemma digits2_pos_size (p : positive) : digits2_pos p = Pos.size p.
  Proof. induction p as [p IH|p IH|]; simpl; try rewrite IH; reflexivity. Qed.

Lemma Zdigits2_pos (z : Z) : 0 < z -> 1 <= Zdigits2 z.
  Proof. destruct z; simpl; lia. Qed.

Lemma Zdigits2_lt (z : Z) : 0 <= z -> z < 2 ^ Zdigits2 z.
  Proof.
    destruct z as [|p|p]; intro H; cbn [Zdigits2]; [reflexivity| |lia].
    rewrite digits2_pos_size; pose proof (Pos.size_gt p) as Hs.
    apply Pos2Z.pos_lt_pos in Hs; rewrite Pos2Z.inj_pow in Hs; exact Hs.
  Qed.

Lemma Zdigits2_ge (z : Z) : 0 < z -> 2 ^ (Zdigits2 z - 1) <= z.
  Proof.
    destruct z as [|p|p]; intro H; cbn [Zdigits2]; try lia.
    rewrite digits2_pos_size; pose proof (Pos.size_le p) as Hs.
    apply Pos2Z.pos_le_pos in Hs; rewrite Pos2Z.inj_pow, (Pos2Z.inj_xO p) in Hs.
    replace (Z.pos (Pos.size p)) with (Z.succ (Z.pos (Pos.size p) - 1)) in Hs by lia.
    rewrite Z.pow_succ_r in Hs by lia; lia.
  Qed.

Lemma Zdigits2_le (z k : Z) : 0 <= z -> 0 <= k -> z < 2 ^ k -> Zdigits2 z <= k.
  Proof.
    intros Hz Hk Hlt; destruct (Z.eq_dec z 0) as [->|Hn]; [simpl; lia|].
    pose proof (Zdigits2_ge z ltac:(lia)); pose proof (Zdigits2_pos z ltac:(lia)).
    destruct (Z_le_gt_dec (Zdigits2 z) k) as [|Hg]; [assumption|].
    assert (2 ^ k <= 2 ^ (Zdigits2 z - 1)) by (apply Z.pow_le_mono_r; lia); lia.
  Qed.

Lemma fexp_eq (x : Z) : fexp prec emax x = Z.max (x - 53) (-1074).
  Proof. reflexivity. Qed.

Lemma powerRZ_2_IZR (z : Z) : 0 <= z -> powerRZ 2 z = IZR (2 ^ z).
  Proof.
    intro H; destruct z as [|p|p]; [reflexivity| |lia].
    simpl powerRZ; rewrite <- (positive_nat_Z p), <- pow_IZR; reflexivity.
  Qed.

Lemma powerRZ_2_add (a b : Z) : powerRZ 2 (a + b) = (powerRZ 2 a * powerRZ 2 b)%R.
  Proof. apply powerRZ_add; lra. Qed.

Lemma powerRZ_2_pos (a : Z) : (0 < powerRZ 2 a)%R.
  Proof. apply powerRZ_lt; lra. Qed.

Lemma powerRZ_2_le (a b : Z) : a <= b -> (powerRZ 2 a <= powerRZ 2 b)%R.
  Proof.
    intro H; replace b with (a + (b - a)) by lia.
    rewrite powerRZ_2_add, (powerRZ_2_IZR (b - a)) by lia.
    pose proof (powerRZ_2_pos a).
    assert (1 <= IZR (2 ^ (b - a)))%R
      by (apply IZR_le; pose proof (Z.pow_pos_nonneg 2 (b - a)); lia).
    nra.
  Qed.

Lemma powerRZ_2_lt (a b : Z) : a < b -> (powerRZ 2 a < powerRZ 2 b)%R.
  Proof.
    intro H; replace b with (a + (b - a)) by lia.
    rewrite powerRZ_2_add, (powerRZ_2_IZR (b - a)) by lia.
    pose proof (powerRZ_2_pos a).
    assert (2 <= IZR (2 ^ (b - a)))%R.
    { apply IZR_le; replace (b - a) with (Z.succ (b - a - 1)) by lia.
      rewrite Z.pow_succ_r by lia; pose proof (Z.pow_pos_nonneg 2 (b - a - 1)); lia. }
    nra.
  Qed.

Lemma powerRZ_2_le_inv (a b : Z) : (powerRZ 2 a <= powerRZ 2 b)%R -> a <= b.
  Proof.
    intro H; destruct (Z_le_gt_dec a b) as [|Hg]; [assumption|].
    apply Z.gt_lt, powerRZ_2_lt in Hg; lra.
  Qed.

Lemma powerRZ_2_lt_inv (a b : Z) : (powerRZ 2 a < powerRZ 2 b)%R -> a < b.
  Proof.
    intro H; destruct (Z_lt_le_dec a b) as [|Hg]; [assumption|].
    apply powerRZ_2_le in Hg; lra.
  Qed.

Lemma F2R_bounds (m e : Z) : 0 < m ->
    (powerRZ 2 (Zdigits2 m - 1 + e) <= F2R m e < powerRZ 2 (Zdigits2 m + e))%R.
  Proof.
    intro Hm; unfold F2R.
    pose proof (Zdigits2_ge m Hm); pose proof (Zdigits2_lt m ltac:(lia)).
    pose proof (Zdigits2_pos m Hm); pose proof (powerRZ_2_pos e).
    rewrite !powerRZ_2_add, (powerRZ_2_IZR (Zdigits2 m - 1)), (powerRZ_2_IZR (Zdigits2 m))
      by lia.
    split; [apply Rmult_le_compat_r; [lra|apply IZR_le; lia]
           |apply Rmult_lt_compat_r; [lra|apply IZR_lt; lia]].
  Qed.

Lemma F2R_le (m n e : Z) : m <= n -> (F2R m e <= F2R n e)%R.
  Proof.
    intro H; unfold F2R; apply Rmult_le_compat_r;
      [apply Rlt_le, powerRZ_2_pos|apply IZR_le; exact H].
  Qed.

Lemma F2R_succ (m e : Z) : F2R (m + 1) e = (F2R m e + powerRZ 2 e)%R.
  Proof. unfold F2R; rewrite plus_IZR; ring. Qed.

Lemma F2R_mul (a b e f : Z) : F2R (a * b) (e + f) = (F2R a e * F2R b f)%R.
  Proof. unfold F2R; rewrite mult_IZR, powerRZ_2_add; ring. Qed.

Lemma F2R_shift (m s e : Z) : 0 <= s -> F2R (m * 2 ^ s) e = F2R m (s + e).
  Proof. intro Hs; unfold F2R; rewrite mult_IZR, powerRZ_2_add, (powerRZ_2_IZR s) by exact Hs; ring. Qed.

Lemma F2R_div_le (m ex E : Z) : 0 <= m -> ex <= E ->
    (F2R (m / 2 ^ (E - ex)) E <= F2R m ex)%R.
  Proof.
    intros Hm HE; unfold F2R.
    replace E with ((E - ex) + ex) at 2 by lia.
    rewrite powerRZ_2_add, (powerRZ_2_IZR (E - ex)) by lia.
    pose proof (powerRZ_2_pos ex).
    assert (Hd : 2 ^ (E - ex) * (m / 2 ^ (E - ex)) <= m)
      by (apply Z.mul_div_le; apply Z.pow_pos_nonneg; lia).
    apply IZR_le in Hd; rewrite mult_IZR in Hd.
    nra.
  Qed.

Lemma shr_1_m (mrs : shr_record) : 0 <= shr_m mrs -> shr_m (shr_1 mrs) = shr_m mrs / 2.
  Proof.
    destruct mrs as [m r s]; simpl; intro H.
    destruct m as [|[p|p|]|p]; simpl; try reflexivity; try lia.
    - replace (Z.pos p~1) with (1 + Z.pos p * 2) by lia.
      rewrite Z.div_add by lia; reflexivity.
    - replace (Z.pos p~0) with (Z.pos p * 2) by lia.
      rewrite Z.div_mul by lia; reflexivity.
  Qed.

Lemma iter_shr_m (p : positive) : forall mrs, 0 <= shr_m mrs ->
    shr_m (SpecFloat.iter_pos shr_1 p mrs) = shr_m mrs / 2 ^ Z.pos p.
  Proof.
    induction p as [p IH|p IH|]; intros mrs H; cbn [SpecFloat.iter_pos].
    - pose proof (Z.pow_pos_nonneg 2 (Z.pos p) ltac:(lia) ltac:(lia)).
      assert (H1 : 0 <= shr_m (shr_1 mrs))
        by (rewrite shr_1_m by exact H; apply Z.div_pos; lia).
      assert (H2 : shr_m (SpecFloat.iter_pos shr_1 p (shr_1 mrs)) = shr_m mrs / 2 / 2 ^ Z.pos p)
        by (rewrite IH, shr_1_m by assumption; reflexivity).
      assert (H3 : 0 <= shr_m (SpecFloat.iter_pos shr_1 p (shr_1 mrs)))
        by (rewrite H2; apply Z.div_pos; [apply Z.div_pos|]; lia).
      rewrite IH, H2 by exact H3; rewrite !Z.div_div by lia; f_equal.
      rewrite Pos2Z.inj_xI; replace (2 * Z.pos p + 1) with (1 + Z.pos p + Z.pos p) by lia.
      rewrite !Z.pow_add_r by lia; ring.
    - pose proof (Z.pow_pos_nonneg 2 (Z.pos p) ltac:(lia) ltac:(lia)).
      assert (H2 : shr_m (SpecFloat.iter_pos shr_1 p mrs) = shr_m mrs / 2 ^ Z.pos p) by (apply IH; exact H).
      assert (H3 : 0 <= shr_m (SpecFloat.iter_pos shr_1 p mrs)) by (rewrite H2; apply Z.div_pos; lia).
      rewrite IH, H2 by exact H3; rewrite Z.div_div by lia; f_equal.
      rewrite (Pos2Z.inj_xO p); replace (2 * Z.pos p) with (Z.pos p + Z.pos p) by lia.
      rewrite Z.pow_add_r by lia; ring.
    - rewrite shr_1_m by exact H; reflexivity.
  Qed.

Lemma shr_spec (mrs : shr_record) (e n : Z) : 0 <= shr_m mrs ->
    shr_m (fst (shr mrs e n)) = shr_m mrs / 2 ^ Z.max 0 n /\
    snd (shr mrs e n) = e + Z.max 0 n.
  Proof.
    intro H; destruct n as [|p|p]; simpl.
    - rewrite Z.div_1_r; split; lia.
    - split; [apply iter_shr_m; exact H|reflexivity].
    - rewrite Z.div_1_r; split; lia.
  Qed.

Lemma shr_fexp_spec (m e : Z) (l : location) : 0 <= m ->
    shr_m (fst (shr_fexp prec emax m e l)) =
      m / 2 ^ (Z.max e (fexp prec emax (Zdigits2 m + e)) - e) /\
    snd (shr_fexp prec emax m e l) = Z.max e (fexp prec emax (Zdigits2 m + e)).
  Proof.
    intros Hm; unfold shr_fexp.
    assert (Hr : shr_m (shr_record_of_loc m l) = m) by (destruct l as [|[]]; reflexivity).
    destruct (shr_spec (shr_record_of_loc m l) e (fexp prec emax (Zdigits2 m + e) - e))
      as [H1 H2]; [lia|].
    rewrite Hr in H1; rewrite H1, H2; split; [f_equal; f_equal; lia|lia].
  Qed.

Lemma shr_fexp_noshift (m e : Z) :
    fexp prec emax (Zdigits2 m + e) <= e ->
    shr_fexp prec emax m e loc_Exact = (Build_shr_record m false false, e).
  Proof.
    intro H; unfold shr_fexp.
    destruct (fexp prec emax (Zdigits2 m + e) - e) eqn:E; [reflexivity|lia|reflexivity].
  Qed.

Lemma rne_bounds (m : Z) (l : location) :
    m <= round_nearest_even m l <= m + 1.
  Proof. destruct l as [|[]]; simpl; try lia; destruct (Z.even m); lia. Qed.

Lemma round_aux_bound (mx ex : Z) (lx : location) :
    0 <= mx ->
    Z.max ex (fexp prec emax (Zdigits2 mx + ex)) + 1 <= emax - prec ->
    binary_round_aux prec emax false mx ex lx = S754_zero false \/
    exists m e, binary_round_aux prec emax false mx ex lx = S754_finite false m e /\
      e <= Z.max ex (fexp prec emax (Zdigits2 mx + ex)) + 1 /\
      (F2R (Z.pos m) e <=
         F2R mx ex + powerRZ 2 (Z.max ex (fexp prec emax (Zdigits2 mx + ex))))%R.
  Proof.
    intros Hmx Hlim.
    set (E := Z.max ex (fexp prec emax (Zdigits2 mx + ex))) in *.
    pose proof (shr_fexp_spec mx ex lx Hmx) as [H1 H2]; fold E in H1, H2.
    unfold binary_round_aux.
    destruct (shr_fexp prec emax mx ex lx) as [mrs' e'] eqn:Hs1.
    cbn [fst snd] in H1, H2; subst e'.
    set (m' := shr_m mrs') in *.
    set (m1 := round_nearest_even m' (loc_of_shr_record mrs')).
    assert (HE : ex <= E) by lia.
    assert (Hp : 0 < 2 ^ (E - ex)) by (apply Z.pow_pos_nonneg; lia).
    assert (Hm' : 0 <= m') by (rewrite H1; apply Z.div_pos; lia).
    assert (Hm1 : m' <= m1 <= m' + 1) by apply rne_bounds.
    assert (Hlt : m' < 2 ^ 53).
    { rewrite H1; apply Z.div_lt_upper_bound; [exact Hp|].
      pose proof (Zdigits2_lt mx Hmx).
      assert (Zdigits2 mx + ex - 53 <= E) by (unfold E; rewrite fexp_eq; lia).
      assert (2 ^ Zdigits2 mx <= 2 ^ ((E - ex) + 53))
        by (apply Z.pow_le_mono_r; [lia|]; lia).
      rewrite Z.pow_add_r in * by lia; lia. }
    assert (Hd1 : Zdigits2 m1 <= 54).
    { apply Zdigits2_le; [lia|lia|].
      assert (2 ^ 54 = 2 * 2 ^ 53) by reflexivity; lia. }
    pose proof (shr_fexp_spec m1 E loc_Exact ltac:(lia)) as [H3 H4].
    destruct (shr_fexp prec emax m1 E loc_Exact) as [mrs'' e''] eqn:Hs2.
    cbn [fst snd] in H3, H4.
    assert (HminE : -1074 <= E) by (unfold E; rewrite fexp_eq; lia).
    assert (HE2 : E <= e'' <= E + 1) by (rewrite H4, fexp_eq; lia).
    assert (Hp2 : 0 < 2 ^ (e'' - E)) by (apply Z.pow_pos_nonneg; lia).
    rewrite <- H4 in H3.
    destruct (shr_m mrs'') as [|p|p] eqn:Hm''.
    - left; reflexivity.
    - right; exists p, e''.
      assert (Hb : (e'' <=? emax - prec) = true) by (apply Z.leb_le; lia).
      rewrite Hb; split; [reflexivity|split; [lia|]].
      rewrite H3.
      apply (Rle_trans _ (F2R m1 E)); [apply F2R_div_le; lia|].
      apply (Rle_trans _ (F2R (m' + 1) E)); [apply F2R_le; lia|].
      rewrite F2R_succ; apply Rplus_le_compat_r.
      rewrite H1; apply F2R_div_le; lia.
    - exfalso; assert (0 <= m1 / 2 ^ (e'' - E)) by (apply Z.div_pos; lia); lia.
  Qed.

Lemma round_aux_exact (m : positive) (e : Z) :
    Zdigits2 (Z.pos m) = 53 -> -1074 <= e <= emax - prec ->
    binary_round_aux prec emax false (Z.pos m) e loc_Exact = S754_finite false m e.
  Proof.
    intros Hd He; unfold binary_round_aux.
    rewrite shr_fexp_noshift by (rewrite fexp_eq; lia).
    cbn [shr_m loc_of_shr_record round_nearest_even].
    rewrite shr_fexp_noshift by (rewrite fexp_eq; lia).
    cbn [shr_m].
    replace (e <=? emax - prec) with true by (symmetry; apply Z.leb_le; lia).
    reflexivity.
  Qed.

Lemma iter_xO_val (p k : positive) : Z.pos (Pos.iter xO p k) = Z.pos p * 2 ^ Z.pos k.
  Proof.
    induction k as [|k IH] using Pos.peano_ind; [simpl; lia|].
    rewrite Pos.iter_succ, Pos2Z.inj_xO, IH, Pos2Z.inj_succ, Z.pow_succ_r by lia; ring.
  Qed.

Lemma iter_xO_digits (p k : positive) :
    Zdigits2 (Z.pos (Pos.iter xO p k)) = Zdigits2 (Z.pos p) + Z.pos k.
  Proof.
    induction k as [|k IH] using Pos.peano_ind; cbn [Zdigits2] in *.
    - simpl; lia.
    - rewrite Pos.iter_succ; cbn [digits2_pos]; lia.
  Qed.

  (** The conversion of a small integer is exact. *)
Lemma binary_round_int (p : positive) : Z.pos p < 2 ^ 53 ->
    exists m e, binary_round prec emax false p 0 = S754_finite false m e /\
                F2R (Z.pos m) e = IZR (Z.pos p).
  Proof.
    intro Hp; unfold binary_round.
    assert (Hd : Zdigits2 (Z.pos p) <= 53) by (apply Zdigits2_le; lia).
    pose proof (Zdigits2_pos (Z.pos p) ltac:(lia)) as Hd1.
    cbn [Zdigits2] in Hd, Hd1.
    replace (fexp prec emax (Z.pos (digits2_pos p) + 0))
      with (Z.pos (digits2_pos p) - 53) by (rewrite fexp_eq; lia).
    unfold shl_align.
    destruct (Z.pos (digits2_pos p) - 53 - 0) as [|k|k] eqn:Ek.
    - rewrite round_aux_exact; [eexists _, _; split; [reflexivity|]| cbn [Zdigits2]; lia|].
      + unfold F2R; simpl powerRZ; ring.
      + unfold emax, prec; lia.
    - lia.
    - rewrite round_aux_exact.
      + eexists _, _; split; [reflexivity|].
        rewrite iter_xO_val, F2R_shift by lia.
        replace (Z.pos k + (Z.pos (digits2_pos p) - 53)) with 0 by lia.
        unfold F2R; simpl powerRZ; ring.
      + rewrite iter_xO_digits; cbn [Zdigits2]; lia.
      + unfold emax, prec; lia.
  Qed.

Lemma js_length_exact (n : nat) : (0 < n)%nat -> Z.of_nat n < 2 ^ 53 ->
    exists m e, Prim2SF (js_length n) = S754_finite false m e /\
                F2R (Z.pos m) e = IZR (Z.of_nat n).
  Proof.
    intros Hn Hlt; unfold js_length; rewrite of_uint63_spec.
    assert (Hw : Uint63.wB = 2 ^ 63) by reflexivity.
    rewrite Uint63.of_Z_spec, Z.mod_small by (rewrite Hw; lia).
    destruct (Z.of_nat n) as [|p|p] eqn:E; [lia| |lia].
    exact (binary_round_int p Hlt).
  Qed.

Lemma div_core (m1 m2 : positive) (e1 e2 q e' : Z) (l : location) :
    SFdiv_core_binary prec emax (Z.pos m1) e1 (Z.pos m2) e2 = (q, e', l) ->
    0 <= q /\
    e' <= fexp prec emax (Zdigits2 (Z.pos m1) + e1 - (Zdigits2 (Z.pos m2) + e2)) /\
    e' <= e1 - e2 /\ q * Z.pos m2 <= Z.pos m1 * 2 ^ (e1 - e2 - e').
  Proof.
    intro H; unfold SFdiv_core_binary in H; cbv zeta in H.
    remember (Z.min (fexp prec emax (Zdigits2 (Z.pos m1) + e1 - (Zdigits2 (Z.pos m2) + e2)))
                    (e1 - e2)) as e0 eqn:He0.
    assert (Hs : 0 <= e1 - e2 - e0) by lia.
    assert (Hm : match e1 - e2 - e0 with
                 | Z.pos _ => Z.shiftl (Z.pos m1) (e1 - e2 - e0)
                 | Z0 => Z.pos m1
                 | Z.neg _ => 0 end = Z.pos m1 * 2 ^ (e1 - e2 - e0)).
    { destruct (e1 - e2 - e0) eqn:Es; [ring| |lia].
      rewrite Z.shiftl_mul_pow2 by lia; reflexivity. }
    rewrite Hm in H.
    destruct (Z.div_eucl (Z.pos m1 * 2 ^ (e1 - e2 - e0)) (Z.pos m2)) as [q0 r] eqn:Hd.
    injection H as <- <- _.
    assert (Hq : q0 = Z.pos m1 * 2 ^ (e1 - e2 - e0) / Z.pos m2)
      by (unfold Z.div; rewrite Hd; reflexivity).
    pose proof (Z.pow_pos_nonneg 2 (e1 - e2 - e0) ltac:(lia) Hs).
    split; [rewrite Hq; apply Z.div_pos; lia|].
    split; [lia|split; [lia|]].
    rewrite Hq, Z.mul_comm; apply Z.mul_div_le; lia.
  Qed.

Lemma div_le_one (m1 m2 : positive) (e1 e2 : Z) :
    (F2R (Z.pos m1) e1 <= F2R (Z.pos m2) e2)%R ->
    SF64div (S754_finite false m1 e1) (S754_finite false m2 e2) = S754_zero false \/
    exists m e, SF64div (S754_finite false m1 e1) (S754_finite false m2 e2)
                = S754_finite false m e /\
      e <= -51 /\ (F2R (Z.pos m) e <= 1 + powerRZ 2 (-52))%R.
  Proof.
    intro Hle; unfold SF64div, SFdiv.
    destruct (SFdiv_core_binary prec emax (Z.pos m1) e1 (Z.pos m2) e2) as [[q e'] l] eqn:Hc.
    destruct (div_core _ _ _ _ _ _ _ Hc) as [Hq [He1 [He2 Hqm]]].
    change (xorb false false) with false.
    assert (Hpos2 : (0 < F2R (Z.pos m2) e2)%R)
      by (unfold F2R; apply Rmult_lt_0_compat; [apply IZR_lt; lia|apply powerRZ_2_pos]).
    assert (Hr : (F2R q e' <= 1)%R).
    { assert (Hx : (F2R (q * Z.pos m2) (e' + e2)
                    <= F2R (Z.pos m1 * 2 ^ (e1 - e2 - e')) (e' + e2))%R)
        by (apply F2R_le; exact Hqm).
      rewrite F2R_mul, F2R_shift in Hx by lia.
      replace (e1 - e2 - e' + (e' + e2)) with e1 in Hx by lia.
      nra. }
    assert (Hdd : Zdigits2 (Z.pos m1) + e1 <= Zdigits2 (Z.pos m2) + e2).
    { pose proof (F2R_bounds (Z.pos m1) e1 ltac:(lia)) as [Ha _].
      pose proof (F2R_bounds (Z.pos m2) e2 ltac:(lia)) as [_ Hb].
      assert (Hx : (powerRZ 2 (Zdigits2 (Z.pos m1) - 1 + e1)
                    < powerRZ 2 (Zdigits2 (Z.pos m2) + e2))%R) by lra.
      apply powerRZ_2_lt_inv in Hx; lia. }
    assert (He' : e' <= -53) by (rewrite fexp_eq in He1; lia).
    assert (Hdq : Zdigits2 q + e' <= 1).
    { destruct (Z.eq_dec q 0) as [->|Hq0]; [simpl; lia|].
      pose proof (F2R_bounds q e' ltac:(lia)) as [Hb _].
      assert (Hx : (powerRZ 2 (Zdigits2 q - 1 + e') <= powerRZ 2 0)%R) by (simpl; lra).
      apply powerRZ_2_le_inv in Hx; lia. }
    assert (HE : Z.max e' (fexp prec emax (Zdigits2 q + e')) <= -52)
      by (rewrite fexp_eq; lia).
    destruct (round_aux_bound q e' l Hq ltac:(unfold emax, prec in *; lia))
      as [H|[m [e [H [Hb Hv]]]]].
    - left; exact H.
    - right; exists m, e; split; [exact H|split; [lia|]].
      pose proof (powerRZ_2_le _ (-52) HE); lra.
  Qed.

Lemma powerRZ_2_neg (k : Z) : 0 <= k -> (powerRZ 2 (- k) * IZR (2 ^ k) = 1)%R.
  Proof.
    intro Hk; rewrite powerRZ_neg', <- powerRZ_2_IZR by exact Hk.
    apply Rinv_l, Rgt_not_eq, powerRZ_2_pos.
  Qed.

Lemma prim_100 : Prim2SF 100%float = S754_finite false 7036874417766400 (-46).
  Proof. reflexivity. Qed.

Lemma mul100_bound (m : positive) (e : Z) :
    e <= -51 -> (F2R (Z.pos m) e <= 1 + powerRZ 2 (-52))%R ->
    SF64mul (S754_finite false m e) (S754_finite false 7036874417766400 (-46))
      = S754_zero false \/
    exists m' e', SF64mul (S754_finite false m e) (S754_finite false 7036874417766400 (-46))
                  = S754_finite false m' e' /\ (F2R (Z.pos m') e' < 201 / 2)%R.
  Proof.
    intros He Hv; unfold SF64mul, SFmul; change (xorb false false) with false.
    set (M := (m * 7036874417766400)%positive).
    assert (H100 : F2R 7036874417766400 (-46) = 100%R).
    { pose proof (powerRZ_2_neg 46 ltac:(lia)) as H46.
      change (2 ^ 46) with 70368744177664 in H46;
      change (Z.opp 46) with (-46) in H46.
      unfold F2R.
      replace (IZR 7036874417766400) with (100 * IZR 70368744177664)%R
        by (rewrite <- mult_IZR; reflexivity).
      lra. }
    assert (HP : F2R (Z.pos M) (e + -46) = (F2R (Z.pos m) e * 100)%R)
      by (unfold M; rewrite Pos2Z.inj_mul, F2R_mul, H100; reflexivity).
    pose proof (powerRZ_2_neg 52 ltac:(lia)) as H52.
    change (2 ^ 52) with 4503599627370496 in H52;
    change (Z.opp 52) with (-52) in H52.
    pose proof (powerRZ_2_pos (-52)) as H52p.
    assert (H7 : powerRZ 2 7 = 128%R) by (rewrite powerRZ_2_IZR by lia; reflexivity).
    assert (Hd : Zdigits2 (Z.pos M) + (e + -46) <= 7).
    { pose proof (F2R_bounds (Z.pos M) (e + -46) ltac:(lia)) as [Hb _].
      assert (Hx : (powerRZ 2 (Zdigits2 (Z.pos M) - 1 + (e + -46)) < powerRZ 2 7)%R)
        by lra.
      apply powerRZ_2_lt_inv in Hx; lia. }
    assert (HE : Z.max (e + -46) (fexp prec emax (Zdigits2 (Z.pos M) + (e + -46))) <= -46)
      by (rewrite fexp_eq; lia).
    destruct (round_aux_bound (Z.pos M) (e + -46) loc_Exact ltac:(lia)
                ltac:(unfold emax, prec in *; lia)) as [H|[m' [e' [H [_ Hb]]]]].
    - left; exact H.
    - right; exists m', e'; split; [exact H|].
      pose proof (powerRZ_2_le _ (-46) HE) as Hle.
      pose proof (powerRZ_2_neg 46 ltac:(lia)) as H46.
      change (2 ^ 46) with 70368744177664 in H46;
      change (Z.opp 46) with (-46) in H46.
      pose proof (powerRZ_2_pos (-46)).
      lra.
  Qed.

Lemma math_round_range (x : float) :
    (Prim2SF x = S754_zero false \/
     exists m e, Prim2SF x = S754_finite false m e /\ (F2R (Z.pos m) e < 201 / 2)%R) ->
    0 <= math_round x <= 100.
  Proof.
    unfold math_round; intros [H|[m [e [H Hv]]]]; rewrite H; [lia|].
    unfold floor_half, F2R in *.
    destruct (Z.leb_spec 0 e) as [He|He].
    - rewrite powerRZ_2_IZR, <- mult_IZR in Hv by exact He.
      assert (Hx : (IZR (2 * (Z.pos m * 2 ^ e)) < IZR 201)%R) by (rewrite mult_IZR; lra).
      apply lt_IZR in Hx.
      assert (0 < Z.pos m * 2 ^ e)
        by (apply Z.mul_pos_pos; [lia|apply Z.pow_pos_nonneg; lia]).
      lia.
    - set (k := - e) in *.
      replace e with (- k) in Hv by lia.
      pose proof (powerRZ_2_neg k ltac:(lia)) as Hk.
      pose proof (Z.pow_pos_nonneg 2 k ltac:(lia) ltac:(lia)) as Hk0.
      assert (Hk1 : (0 < IZR (2 ^ k))%R) by (apply IZR_lt; exact Hk0).
      assert (Hx : (IZR (2 * Z.pos m) < IZR (201 * 2 ^ k))%R).
      { rewrite !mult_IZR.
        assert (Hm : IZR (Z.pos m) = (IZR (Z.pos m) * powerRZ 2 (- k) * IZR (2 ^ k))%R)
          by (rewrite Rmult_assoc, Hk; ring).
        nra. }
      apply lt_IZR in Hx.
      replace (1 - e) with (1 + k) by lia.
      rewrite Z.pow_add_r by lia.
      split; [apply Z.div_pos; lia|].
      apply Z.lt_succ_r, Z.div_lt_upper_bound; lia.
  Qed.
End FloatFacts.

(** C10: for every lesson list a JavaScript array can hold (fewer than
    [2^32] elements) and every fetched progress set, duplicates included,
    the completion percentage lies between [0] and [100]: the count of
    completed lessons never exceeds the number of lessons, and then the
    double [(c / n) * 100] is below [100.5]. *)
Theorem calculateProgress_range (lessons : list Lesson.t)
    (progress : list UserProgress.t) :
  Z.of_nat (List.length lessons) < 2 ^ 32 ->
  0 <= calculateProgress lessons progress <= 100.
Proof.
  intro Hn; unfold calculateProgress.
  destruct (Nat.eqb_spec (List.length lessons) 0) as [E|E]; [lia|].
  set (c := List.length (filter _ lessons)).
  assert (Hc : (c <= List.length lessons)%nat) by apply filter_length_le.
  clearbody c.
  set (n := List.length lessons) in *.
  assert (Hb : Z.of_nat n < 2 ^ 53)
    by (apply (Z.lt_trans _ (2 ^ 32)); [exact Hn|reflexivity]).
  apply math_round_range.
  rewrite mul_spec, div_spec, prim_100.
  destruct (js_length_exact n ltac:(lia) Hb) as [m2 [e2 [H2 V2]]].
  rewrite H2.
  destruct c as [|c'].
  - left; reflexivity.
  - destruct (js_length_exact (S c') ltac:(lia) ltac:(lia)) as [m1 [e1 [H1 V1]]].
    rewrite H1.
    assert (Hle : (F2R (Z.pos m1) e1 <= F2R (Z.pos m2) e2)%R)
      by (rewrite V1, V2; apply IZR_le; lia).
    destruct (div_le_one m1 m2 e1 e2 Hle) as [Hd|[m [e [Hd [He Hv]]]]]; rewrite Hd.
    + left; reflexivity.
    + exact (mul100_bound m e He Hv).
Qed.

Lemma calculateProgress_range_witness :
  Z.of_nat (List.length (ex_lessons 2)) < 2 ^ 32 /\
  0 <= calculateProgress (ex_lessons 2) (ex_records 1) <= 100.
Proof.
  split; [apply Z.ltb_lt; reflexivity|].
  apply calculateProgress_range; apply Z.ltb_lt; reflexivity.
Defined.

(** * Further properties of the code *)

(** ** Row-level security of the other tables *)

Lemma filter_const_true {A} (l : list A) : filter (fun _ => true) l = l.
Proof. induction l as [|x l IH]; simpl; [reflexivity|now rewrite IH]. Qed.

Lemma filter_const_false {A} (l : list A) : filter (fun _ => false) l = [].
Proof. induction l as [|x l IH]; simpl; [reflexivity|exact IH]. Qed.

(** An [UPDATE] no row passes the [USING] of leaves the table as it is. *)
Lemma table_update_none_applies {R} (pols : list (Rls.policy R)) (cl : Rls.caller)
    (w : R -> bool) (patch : R -> R) (tbl : list R) :
  (forall r, Rls.using_ok pols Rls.UPDATE cl r = false) ->
  table_update pols cl w patch tbl = Some tbl.
Proof.
  intros Hu; unfold table_update.
  replace (forallb _ tbl) with true.
  - f_equal; induction tbl as [|r tbl IH]; simpl; [reflexivity|].
    rewrite Hu, andb_false_r; now rewrite IH.
  - symmetry; apply forallb_forall; intros r _; now rewrite Hu, andb_false_r.
Qed.

Lemma delete_none_applies {R} (pols : list (Rls.policy R)) (cl : Rls.caller)
    (w : R -> bool) (tbl : list R) :
  (forall r, Rls.using_ok pols Rls.DELETE cl r = false) ->
  Rls.delete pols cl w tbl = tbl.
Proof.
  intros Hu; unfold Rls.delete.
  induction tbl as [|r tbl IH]; simpl; [reflexivity|].
  rewrite Hu, andb_false_r; simpl; now rewrite IH.
Qed.

(** A table update either leaves a row as it was or replaces it by its
    patch, when [w] and [USING] select it; the patched rows pass
    [WITH CHECK]. *)
Lemma table_update_rows {R} (pols : list (Rls.policy R)) (cl : Rls.caller)
    (w : R -> bool) (patch : R -> R) (tbl tbl' : list R) :
  table_update pols cl w patch tbl = Some tbl' ->
  Forall2 (fun r r' => r' = r \/
             (w r = true /\ Rls.using_ok pols Rls.UPDATE cl r = true /\
              Rls.check_ok pols Rls.UPDATE cl r' = true /\ r' = patch r)) tbl tbl'.
Proof.
  unfold table_update; destruct (forallb _ tbl) eqn:Hall; [|discriminate].
  intros E; injection E as <-.
  induction tbl as [|r tbl IH]; simpl; constructor.
  - simpl in Hall; apply andb_true_iff in Hall as [Hr _].
    destruct (w r && Rls.using_ok pols Rls.UPDATE cl r) eqn:Hh; [|now left].
    right; apply andb_true_iff in Hh as [Hw Hu]; simpl in Hr.
    repeat split; auto.
  - apply IH; simpl in Hall; apply andb_true_iff in Hall as [_ Hall]; exact Hall.
Qed.

(** X1: the course catalogue ([courses], [lessons]) is readable in full by
    every signed-in caller and by no anonymous one, and no client can write
    it: its policies accept no inserted row, an [UPDATE] changes no row and a
    [DELETE] removes none. *)
Theorem catalogue_policies (cl : Rls.caller) (ctbl : list Course.t)
    (ltbl : list Lesson.t) :
  Rls.select courses_policies cl ctbl =
    match Rls.role_of cl with Rls.authenticated => ctbl | Rls.anon => [] end /\
  Rls.select lessons_policies cl ltbl =
    match Rls.role_of cl with Rls.authenticated => ltbl | Rls.anon => [] end /\
  (forall c, Rls.check_ok courses_policies Rls.INSERT cl c = false) /\
  (forall l, Rls.check_ok lessons_policies Rls.INSERT cl l = false) /\
  (forall w patch, table_update courses_policies cl w patch ctbl = Some ctbl) /\
  (forall w patch, table_update lessons_policies cl w patch ltbl = Some ltbl) /\
  (forall w, Rls.delete courses_policies cl w ctbl = ctbl) /\
  (forall w, Rls.delete lessons_policies cl w ltbl = ltbl).
Proof.
  repeat split; intros;
    try (apply table_update_none_applies; intro; reflexivity);
    try (apply delete_none_applies; intro; reflexivity);
    try reflexivity.
  - unfold Rls.select, Rls.using_ok, Rls.applies; simpl.
    destruct (Rls.role_of cl); simpl;
      [apply filter_const_false | apply filter_const_true].
  - unfold Rls.select, Rls.using_ok, Rls.applies; simpl.
    destruct (Rls.role_of cl); simpl;
      [apply filter_const_false | apply filter_const_true].
Qed.

(** X2: on [profiles] a caller may insert only the row with its own id, as
    a signed-in account; an [UPDATE] leaves every other account's profile
    as it was and keeps the identifier of the caller's own; and no
    [DELETE] removes a profile. *)
Theorem profiles_policies_writes (cl : Rls.caller) (tbl : list Profile.t) :
  (forall row, Rls.check_ok Rls.profiles_policies Rls.INSERT cl row = true <->
     Rls.role_of cl = Rls.authenticated /\ Rls.uid cl = Some (Profile.id row)) /\
  (forall w patch tbl', table_update Rls.profiles_policies cl w patch tbl = Some tbl' ->
     Forall2 (fun r r' => r' = r \/
                (Rls.uid cl = Some (Profile.id r) /\ Profile.id r' = Profile.id r))
             tbl tbl') /\
  (forall w, Rls.delete Rls.profiles_policies cl w tbl = tbl).
Proof.
  split; [|split].
  - intro row; unfold Rls.check_ok; simpl; rewrite orb_false_r.
    destruct cl as [[|] [v|]]; simpl; split; try discriminate;
      try (intros [H _]; discriminate); try (intros [_ H]; discriminate).
    + intro H; apply String.eqb_eq in H; subst; auto.
    + intros [_ H]; injection H as ->; apply String.eqb_refl.
  - intros w patch tbl' H; apply table_update_rows in H.
    revert H; apply Forall2_impl; intros r r' [->|[_ [Hu [Hc ->]]]]; [now left|right].
    unfold Rls.using_ok, Rls.check_ok, Rls.applies in *; simpl in *.
    rewrite !orb_false_r in *.
    destruct (Rls.role_of cl); simpl in *; [discriminate|].
    destruct (Rls.uid cl) as [v|]; simpl in *; [|discriminate].
    apply String.eqb_eq in Hu, Hc; split; congruence.
  - intro w; apply delete_none_applies; intro r; unfold Rls.using_ok; simpl.
    reflexivity.
Qed.

(** A successful [user_progress] update of the caller, row by row. *)
Lemma progress_update_rows (u x : string) (patch : UserProgress.t -> UserProgress.t)
    (tbl tbl' : list UserProgress.t) :
  progress_update u x patch tbl = Some tbl' ->
  Forall2 (fun r r' => r' = r \/
             (UserProgress.id r = x /\ UserProgress.user_id r = u /\
              UserProgress.user_id r' = u /\ r' = patch r)) tbl tbl'.
Proof.
  intros H.
  assert (H' : table_update Rls.user_progress_policies (Rls.signed_in u)
                 (fun r => String.eqb (UserProgress.id r) x) patch tbl = Some tbl')
    by exact H.
  apply table_update_rows in H'.
  revert H'; apply Forall2_impl; intros r r' [->|[Hw [Hu [Hc ->]]]]; [now left|right].
  unfold Rls.using_ok, Rls.check_ok, Rls.applies in *; simpl in *.
  rewrite !orb_false_r in *.
  apply String.eqb_eq in Hw, Hu, Hc; auto.
Qed.

(** X3: the client's update of [user_progress] by id never touches another
    account's row and never hands one of the caller's rows to another
    account: a successful update only patches the caller's rows with that
    id, which stay the caller's, and an update that would move such a row
    to another account fails as a whole. *)
Theorem progress_update_isolation (u x : string)
    (patch : UserProgress.t -> UserProgress.t) (tbl : list UserProgress.t) :
  (forall tbl', progress_update u x patch tbl = Some tbl' ->
     Forall2 (fun r r' => r' = r \/
                (UserProgress.id r = x /\ UserProgress.user_id r = u /\
                 UserProgress.user_id r' = u /\ r' = patch r)) tbl tbl') /\
  (forall r, In r tbl -> UserProgress.id r = x -> UserProgress.user_id r = u ->
     UserProgress.user_id (patch r) <> u -> progress_update u x patch tbl = None).
Proof.
  split.
  - apply progress_update_rows.
  - intros r Hin Hid Hu Hp; unfold progress_update.
    replace (forallb _ tbl) with false; [reflexivity|].
    symmetry; apply not_true_iff_false; intro Hall.
    apply (proj1 (forallb_forall _ tbl) Hall) in Hin.
    unfold Rls.using_ok, Rls.check_ok in Hin; simpl in Hin.
    rewrite Hid, Hu, !String.eqb_refl in Hin; simpl in Hin; rewrite orb_false_r in Hin.
    apply String.eqb_eq in Hin; exact (Hp (eq_sym Hin)).
Qed.

(** ** What the page's writes leave alone *)

Section Frame.
  Import UserProgress.

Lemma forall2_filter_others (u : string) (tbl tbl' : list UserProgress.t) :
    Forall2 (fun r r' => r' = r \/ (user_id r = u /\ user_id r' = u)) tbl tbl' ->
    filter (fun r => negb (String.eqb (user_id r) u)) tbl' =
    filter (fun r => negb (String.eqb (user_id r) u)) tbl.
  Proof.
    induction 1 as [|r r' tbl tbl' Hr _ IH]; [reflexivity|]; simpl.
    destruct Hr as [->|[Hu Hu']]; [now rewrite IH|].
    rewrite Hu, Hu', String.eqb_refl; exact IH.
  Qed.

Lemma forall2_map_id (tbl tbl' : list UserProgress.t) :
    Forall2 (fun r r' => id r' = id r) tbl tbl' -> map id tbl' = map id tbl.
  Proof. induction 1; simpl; congruence. Qed.

Lemma update_frame (u x : string) (f : UserProgress.t -> UserProgress.t)
      (Hf : forall r, id (f r) = id r) (tbl tbl' : list UserProgress.t) :
    progress_update u x f tbl = Some tbl' ->
    filter (fun r => negb (String.eqb (user_id r) u)) tbl' =
    filter (fun r => negb (String.eqb (user_id r) u)) tbl /\
    map id tbl' = map id tbl.
  Proof.
    intros H; apply progress_update_rows in H; split.
    - apply forall2_filter_others; revert H; apply Forall2_impl.
      intros r r' [->|[_ [Hu [Hu' _]]]]; auto.
    - apply forall2_map_id; revert H; apply Forall2_impl.
      intros r r' [->|[_ [_ [_ ->]]]]; auto.
  Qed.

Lemma insert_frame (u : string) (row : UserProgress.t) (tbl tbl' : list UserProgress.t) :
    user_id row = u -> progress_insert u row tbl = Some tbl' ->
    filter (fun r => negb (String.eqb (user_id r) u)) tbl' =
    filter (fun r => negb (String.eqb (user_id r) u)) tbl /\
    map id tbl' = map id tbl ++ [id row].
  Proof.
    intros Hu H; apply progress_insert_some in H as [-> _]; split.
    - rewrite filter_app; simpl; rewrite Hu, String.eqb_refl; simpl.
      apply app_nil_r.
    - apply map_app.
  Qed.

Lemma write_frame_refl (u : string) (db : Db) : write_frame u db db.
  Proof. repeat split; exists []; now rewrite app_nil_r. Qed.

Lemma write_frame_trans (u : string) (db1 db2 db3 : Db) :
    write_frame u db1 db2 -> write_frame u db2 db3 -> write_frame u db1 db3.
  Proof.
    intros [C1 [L1 [O1 [e1 I1]]]] [C2 [L2 [O2 [e2 I2]]]].
    repeat split; try congruence.
    exists (e1 ++ e2); rewrite I2, I1, app_assoc; reflexivity.
  Qed.

Lemma toggle_frame (db : Db) (st : State) (u courseId lessonId : string)
      (now : Z) (newId : string) :
    write_frame u db
      (fst (toggleLessonCompletion db st (Some u) courseId lessonId now newId)).
  Proof.
    unfold toggleLessonCompletion.
    destruct (find _ (progress st)) as [ex|].
    - destruct (progress_update _ _ _ _) as [tbl|] eqn:H; [|apply write_frame_refl].
      apply update_frame in H as [O I]; [|reflexivity].
      repeat split; [exact O|]; exists []; rewrite app_nil_r; exact I.
    - destruct (progress_insert _ _ _) as [tbl|] eqn:H; [|apply write_frame_refl].
      apply insert_frame in H as [O I]; [|reflexivity].
      repeat split; [exact O|]; eexists; exact I.
  Qed.

Lemma mark_frame (db : Db) (st : State) (u courseId : string) (now : Z)
      (newId : string) :
    write_frame u db (fst (markCourseCompleted db st (Some u) courseId now newId)).
  Proof.
    unfold markCourseCompleted.
    destruct (find _ (progress st)) as [cp|].
    - destruct (progress_update _ _ _ _) as [tbl|] eqn:H; [|apply write_frame_refl].
      apply update_frame in H as [O I]; [|reflexivity].
      repeat split; [exact O|]; exists []; rewrite app_nil_r; exact I.
    - destruct (progress_insert _ _ _) as [tbl|] eqn:H; [|apply write_frame_refl].
      apply insert_frame in H as [O I]; [|reflexivity].
      repeat split; [exact O|]; eexists; exact I.
  Qed.

Lemma run_ops_frame (u courseId : string) (ops : list op) :
    forall db st, write_frame u db (fst (run_ops db st (Some u) courseId ops)).
  Proof.
    induction ops as [|o ops IH]; intros db st; cbn [run_ops];
      [apply write_frame_refl|].
    destruct o as [lessonId now newId|now newId].
    - pose proof (toggle_frame db st u courseId lessonId now newId) as H.
      destruct (toggleLessonCompletion _ _ _ _ _ _ _) as [db1 st1].
      exact (write_frame_trans _ _ _ _ H (IH db1 st1)).
    - pose proof (mark_frame db st u courseId now newId) as H.
      destruct (markCourseCompleted _ _ _ _ _ _) as [db1 st1].
      exact (write_frame_trans _ _ _ _ H (IH db1 st1)).
  Qed.
End Frame.

(** X4: whatever the page's state, no run of lesson toggles and course
    completions by the signed-in account [u] changes the course catalogue
    or any [user_progress] row of another account. *)
Theorem run_ops_other_accounts (u courseId : string) (ops : list op)
    (db : Db) (st : State) (db' : Db) (st' : State) :
  run_ops db st (Some u) courseId ops = (db', st') ->
  courses db' = courses db /\ lessons_tbl db' = lessons_tbl db /\
  filter (fun r => negb (String.eqb (UserProgress.user_id r) u)) (user_progress db') =
  filter (fun r => negb (String.eqb (UserProgress.user_id r) u)) (user_progress db).
Proof.
  intros H; pose proof (run_ops_frame u courseId ops db st) as [C [L [O _]]].
  rewrite H in C, L, O; auto.
Qed.

Lemma run_ops_other_accounts_witness :
  courses (fst (run_ops (ex_db [ex_done]) (ex_page (ex_db [ex_done])) (Some "u1"%string) "c1"
      [OpToggle "l2" 5 "p2"; OpMark 6 "p3"; OpToggle "l1" 7 "p4"])) = [ex_course].
Proof.
  destruct (run_ops_other_accounts "u1" "c1"
              [OpToggle "l2" 5 "p2"; OpMark 6 "p3"; OpToggle "l1" 7 "p4"]
              (ex_db [ex_done]) (ex_page (ex_db [ex_done])) _ _
              (surjective_pairing _)) as [C _].
  exact C.
Defined.

(** X5: the page never deletes or reorders a [user_progress] row: after any
    run of its writes, the table's ids are the former ids, in their order,
    followed by the ids of the inserted rows. *)
Theorem run_ops_keeps_rows (u courseId : string) (ops : list op)
    (db : Db) (st : State) (db' : Db) (st' : State) :
  run_ops db st (Some u) courseId ops = (db', st') ->
  exists ext, map UserProgress.id (user_progress db') =
              map UserProgress.id (user_progress db) ++ ext.
Proof.
  intros H; pose proof (run_ops_frame u courseId ops db st) as [_ [_ [_ I]]].
  rewrite H in I; exact I.
Qed.

Lemma run_ops_keeps_rows_witness :
  exists ext, map UserProgress.id
      (user_progress (fst (run_ops (ex_db [ex_done]) (ex_page (ex_db [ex_done]))
         (Some "u1"%string) "c1" [OpToggle "l2" 5 "p2"; OpMark 6 "p3"]))) =
    map UserProgress.id (user_progress (ex_db [ex_done])) ++ ext.
Proof.
  apply (run_ops_keeps_rows "u1" "c1" [OpToggle "l2" 5 "p2"; OpMark 6 "p3"]
           (ex_db [ex_done]) (ex_page (ex_db [ex_done])) _ _ (surjective_pairing _)).
Defined.

(** ** Invariants of the page's runs of writes *)

Section Shapes.
  Import UserProgress.

Lemma nodup_map_unique {A B} (f : A -> B) (l : list A) (x y : A) :
    NoDup (map f l) -> In x l -> In y l -> f x = f y -> x = y.
  Proof.
    induction l as [|a l IH]; simpl; [tauto|].
    intros Hnd Hx Hy Hf; inversion Hnd as [|? ? Hnin Hnd']; subst.
    destruct Hx as [<-|Hx], Hy as [<-|Hy]; auto.
    - exfalso; apply Hnin; rewrite Hf; now apply in_map.
    - exfalso; apply Hnin; rewrite <- Hf; now apply in_map.
  Qed.

  (** The three outcomes of a toggle on a page read from the store: the
      record [ex] found for the lesson is patched, or a record is appended,
      or the write failed and nothing changed. *)
Lemma toggle_shape (db : Db) (st : State) (u courseId lessonId : string)
      (now : Z) (newId : string) (db' : Db) (st' : State) :
    db_wf db -> progress st = fetch_progress db u courseId ->
    toggleLessonCompletion db st (Some u) courseId lessonId now newId = (db', st') ->
    (exists ex, In ex (progress st) /\ lesson_id ex = Some lessonId /\
       progress st' = map (patch_at (id ex)
                            (toggle_patch (isLessonCompleted (progress st) lessonId) now))
                          (progress st)) \/
    ((forall r, In r (progress st) -> lesson_id r <> Some lessonId) /\
       progress st' = progress st ++ [mk newId u courseId (Some lessonId) true (Some now) now now]) \/
    st' = st.
  Proof.
    intros Hwf Hst H.
    pose proof (toggle_invariant _ _ _ _ _ _ _ _ _ Hwf Hst H) as [_ Hst'].
    unfold toggleLessonCompletion in H.
    destruct (find _ (progress st)) as [ex|] eqn:Hf.
    - apply find_some in Hf as [Hex Hl]; apply opt_str_eqb_some in Hl.
      assert (Hex' := Hex); rewrite Hst in Hex'.
      rewrite (own_update db u courseId ex) in H
        by (auto; intro; apply toggle_patch_keeps).
      injection H as <- <-; left; exists ex; split; [exact Hex|split; [exact Hl|]].
      rewrite Hst', Hst; apply fetch_patch_at; intro; apply toggle_patch_keeps.
    - right; destruct (progress_insert _ _ _) as [tbl|] eqn:Hi.
      + apply progress_insert_some in Hi as [-> _]; injection H as <- <-.
        left; split.
        * intros r Hr Hl; apply (find_none _ _ Hf) in Hr.
          rewrite Hl in Hr; simpl in Hr; now rewrite String.eqb_refl in Hr.
        * rewrite Hst', Hst, fetch_snoc by reflexivity; reflexivity.
      + injection H as <- <-; now right.
  Qed.

  (** The three outcomes of [markCourseCompleted] on such a page. *)
Lemma mark_shape (db : Db) (st : State) (u courseId : string) (now : Z)
      (newId : string) (db' : Db) (st' : State) :
    db_wf db -> progress st = fetch_progress db u courseId ->
    markCourseCompleted db st (Some u) courseId now newId = (db', st') ->
    (exists cp, In cp (progress st) /\ lesson_id cp = None /\
       progress st' = map (patch_at (id cp) (complete_patch now)) (progress st)) \/
    ((forall r, In r (progress st) -> lesson_id r <> None) /\
       progress st' = progress st ++ [mk newId u courseId None true (Some now) now now]) \/
    st' = st.
  Proof.
    intros Hwf Hst H.
    destruct (find (fun p => is_null (lesson_id p)) (progress st)) as [cp|] eqn:Hf.
    - destruct (mark_step_found _ _ _ _ _ _ _ _ cp Hwf Hst Hf H) as [_ [Hst' _]].
      unfold markCourseCompleted in H; rewrite Hf in H.
      apply find_some in Hf as [Hcp Hl]; apply is_null_true in Hl.
      assert (Hcp' := Hcp); rewrite Hst in Hcp'.
      rewrite (own_update db u courseId cp) in H
        by (auto; intro; apply complete_patch_keeps).
      injection H as <- <-; left; exists cp; split; [exact Hcp|split; [exact Hl|]].
      rewrite Hst', Hst; apply fetch_patch_at; intro; apply complete_patch_keeps.
    - destruct (mark_invariant _ _ _ _ _ _ _ _ Hwf Hst H) as [_ [Hst' _]].
      unfold markCourseCompleted in H; rewrite Hf in H.
      right; destruct (progress_insert _ _ _) as [tbl|] eqn:Hi.
      + apply progress_insert_some in Hi as [-> _]; injection H as <- <-.
        left; split.
        * intros r Hr Hl; apply (find_none _ _ Hf) in Hr.
          rewrite Hl in Hr; discriminate.
        * rewrite Hst', Hst, fetch_snoc by reflexivity; reflexivity.
      + injection H as <- <-; now right.
  Qed.

Lemma nodup_keys_patch (V : list UserProgress.t) (x : string)
      (f : UserProgress.t -> UserProgress.t)
      (Hf : forall r, lesson_id (f r) = lesson_id r) :
    map lesson_id (map (patch_at x f) V) = map lesson_id V.
  Proof.
    rewrite map_map; apply map_ext; intro r; unfold patch_at.
    destruct (String.eqb (id r) x); [apply Hf|reflexivity].
  Qed.

Lemma nodup_keys_snoc (V : list UserProgress.t) (row : UserProgress.t) :
    NoDup (map lesson_id V) ->
    (forall r, In r V -> lesson_id r <> lesson_id row) ->
    NoDup (map lesson_id (V ++ [row])).
  Proof.
    intros Hnd Hn; rewrite map_app; simpl.
    apply NoDup_app; [exact Hnd | constructor; [tauto | constructor] |].
    intros y Hy [<-|[]]; apply in_map_iff in Hy as [r [Hr Hin]].
    exact (Hn r Hin Hr).
  Qed.

  (** The page's rows come from a table with unique ids. *)
Lemma fetch_same_id (db : Db) (u courseId : string) (x y : UserProgress.t) :
    db_wf db -> In x (fetch_progress db u courseId) ->
    In y (fetch_progress db u courseId) -> id x = id y -> x = y.
  Proof.
    intros [_ Hnd] Hx Hy E; apply in_fetch in Hx as [Hx _]; apply in_fetch in Hy as [Hy _].
    exact (nodup_id_unique _ x y Hnd Hx Hy E).
  Qed.

Lemma isLessonCompleted_patch_other (V : list UserProgress.t) (ex : UserProgress.t)
      (f : UserProgress.t -> UserProgress.t)
      (Hf : forall r, lesson_id (f r) = lesson_id r) (other : string) :
    (forall x, In x V -> id x = id ex -> x = ex) ->
    lesson_id ex <> Some other ->
    isLessonCompleted (map (patch_at (id ex) f) V) other = isLessonCompleted V other.
  Proof.
    intros Hu Hl; unfold isLessonCompleted; apply existsb_map_ext_in.
    intros x Hx; unfold patch_at.
    destruct (String.eqb_spec (id x) (id ex)) as [E|E]; [|reflexivity].
    rewrite (Hu x Hx E), Hf.
    destruct (opt_str_eqb (lesson_id ex) (Some other)) eqn:Ho; [|reflexivity].
    apply opt_str_eqb_some in Ho; contradiction.
  Qed.

Lemma isLessonCompleted_snoc_other (V : list UserProgress.t) (row : UserProgress.t)
      (other : string) :
    lesson_id row <> Some other ->
    isLessonCompleted (V ++ [row]) other = isLessonCompleted V other.
  Proof.
    intros Hl; unfold isLessonCompleted; rewrite existsb_app; simpl.
    destruct (opt_str_eqb (lesson_id row) (Some other)) eqn:Ho.
    - apply opt_str_eqb_some in Ho; contradiction.
    - simpl; now rewrite !orb_false_r.
  Qed.

  (** A toggle of [lessonId] leaves the flag of every other lesson. *)
Lemma toggle_other_lesson (db : Db) (st : State) (u courseId lessonId : string)
      (now : Z) (newId : string) (db' : Db) (st' : State) (other : string) :
    db_wf db -> progress st = fetch_progress db u courseId -> lessonId <> other ->
    toggleLessonCompletion db st (Some u) courseId lessonId now newId = (db', st') ->
    isLessonCompleted (progress st') other = isLessonCompleted (progress st) other.
  Proof.
    intros Hwf Hst Hne H.
    destruct (toggle_shape _ _ _ _ _ _ _ _ _ Hwf Hst H)
      as [[ex [Hex [Hl ->]]]|[[_ ->]| ->]]; [| |reflexivity].
    - apply isLessonCompleted_patch_other.
      + intro; apply toggle_patch_keeps.
      + intros x Hx E; rewrite Hst in Hx, Hex; exact (fetch_same_id _ _ _ _ _ Hwf Hx Hex E).
      + rewrite Hl; congruence.
    - apply isLessonCompleted_snoc_other; simpl; congruence.
  Qed.

  (** [markCourseCompleted] leaves every lesson's flag. *)
Lemma mark_lesson_flag (db : Db) (st : State) (u courseId : string) (now : Z)
      (newId : string) (db' : Db) (st' : State) (other : string) :
    db_wf db -> progress st = fetch_progress db u courseId ->
    markCourseCompleted db st (Some u) courseId now newId = (db', st') ->
    isLessonCompleted (progress st') other = isLessonCompleted (progress st) other.
  Proof.
    intros Hwf Hst H.
    destruct (mark_shape _ _ _ _ _ _ _ _ Hwf Hst H)
      as [[cp [Hcp [Hl ->]]]|[[_ ->]| ->]]; [| |reflexivity].
    - apply isLessonCompleted_patch_other.
      + intro; apply complete_patch_keeps.
      + intros x Hx E; rewrite Hst in Hx, Hcp; exact (fetch_same_id _ _ _ _ _ Hwf Hx Hcp E).
      + rewrite Hl; discriminate.
    - apply isLessonCompleted_snoc_other; simpl; discriminate.
  Qed.

Lemma toggle_unique_keys (db : Db) (st : State) (u courseId lessonId : string)
      (now : Z) (newId : string) (db' : Db) (st' : State) :
    db_wf db -> progress st = fetch_progress db u courseId ->
    NoDup (map lesson_id (progress st)) ->
    toggleLessonCompletion db st (Some u) courseId lessonId now newId = (db', st') ->
    NoDup (map lesson_id (progress st')).
  Proof.
    intros Hwf Hst Hnd H.
    destruct (toggle_shape _ _ _ _ _ _ _ _ _ Hwf Hst H)
      as [[ex [_ [_ ->]]]|[[Hn ->]| ->]]; [| |exact Hnd].
    - rewrite nodup_keys_patch; [exact Hnd|]; intro; apply toggle_patch_keeps.
    - apply nodup_keys_snoc; [exact Hnd|]; exact Hn.
  Qed.

Lemma mark_unique_keys (db : Db) (st : State) (u courseId : string) (now : Z)
      (newId : string) (db' : Db) (st' : State) :
    db_wf db -> progress st = fetch_progress db u courseId ->
    NoDup (map lesson_id (progress st)) ->
    markCourseCompleted db st (Some u) courseId now newId = (db', st') ->
    NoDup (map lesson_id (progress st')).
  Proof.
    intros Hwf Hst Hnd H.
    destruct (mark_shape _ _ _ _ _ _ _ _ Hwf Hst H)
      as [[cp [_ [_ ->]]]|[[Hn ->]| ->]]; [| |exact Hnd].
    - rewrite nodup_keys_patch; [exact Hnd|]; intro; apply complete_patch_keeps.
    - apply nodup_keys_snoc; [exact Hnd|]; exact Hn.
  Qed.

Lemma nodup_keys_at_most_one (V : list UserProgress.t) (lessonId : string) :
    NoDup (map lesson_id V) -> at_most_one_record V lessonId.
  Proof.
    intros Hnd p q Hp Hq Hlp Hlq.
    apply (nodup_map_unique lesson_id V p q Hnd Hp Hq); congruence.
  Qed.
End Shapes.

(** X6: the page never creates a second record for a lesson, nor a second
    course-completion record: on a page read from the store whose records
    have pairwise distinct lesson references ([null] included), every run
    of toggles and course completions keeps them pairwise distinct, and
    the page stays equal to a fresh read of the store. *)
Theorem run_ops_unique_records (u courseId : string) (ops : list op) :
  forall (db : Db) (st : State) (db' : Db) (st' : State),
  db_wf db -> progress st = fetch_progress db u courseId ->
  NoDup (map UserProgress.lesson_id (progress st)) ->
  run_ops db st (Some u) courseId ops = (db', st') ->
  db_wf db' /\ progress st' = fetch_progress db' u courseId /\
  NoDup (map UserProgress.lesson_id (progress st')).
Proof.
  induction ops as [|o ops IH]; intros db st db' st' Hwf Hst Hnd H;
    cbn [run_ops] in H.
  - injection H as <- <-; auto.
  - destruct o as [lessonId now newId|now newId].
    + destruct (toggleLessonCompletion db st (Some u) courseId lessonId now newId)
        as [db1 st1] eqn:E.
      destruct (toggle_invariant _ _ _ _ _ _ _ _ _ Hwf Hst E) as [Hwf1 Hst1].
      exact (IH db1 st1 db' st' Hwf1 Hst1 (toggle_unique_keys _ _ _ _ _ _ _ _ _ Hwf Hst Hnd E) H).
    + destruct (markCourseCompleted db st (Some u) courseId now newId)
        as [db1 st1] eqn:E.
      destruct (mark_invariant _ _ _ _ _ _ _ _ Hwf Hst E) as [Hwf1 [Hst1 _]].
      exact (IH db1 st1 db' st' Hwf1 Hst1 (mark_unique_keys _ _ _ _ _ _ _ _ Hwf Hst Hnd E) H).
Qed.

Lemma run_ops_unique_records_witness :
  NoDup (map UserProgress.lesson_id
    (progress (snd (run_ops (ex_db [ex_done]) (ex_page (ex_db [ex_done]))
       (Some "u1"%string) "c1"
       [OpToggle "l2" 5 "p2"; OpMark 6 "p3"; OpToggle "l2" 7 "p4"; OpMark 8 "p5"])))).
Proof.
  refine (proj2 (proj2 (run_ops_unique_records "u1" "c1"
           [OpToggle "l2" 5 "p2"; OpMark 6 "p3"; OpToggle "l2" 7 "p4"; OpMark 8 "p5"]
           (ex_db [ex_done]) (ex_page (ex_db [ex_done])) _ _ _ _ _
           (surjective_pairing _)))).
  - solve_db_wf.
  - reflexivity.
  - simpl; repeat constructor; simpl; tauto.
Defined.

(** X7: toggling other lessons and marking the course never changes a
    lesson's completed flag: on a page read from the store, after any run
    of writes none of which toggles [lessonId], [isLessonCompleted] of
    [lessonId] is what it was. *)
Theorem run_ops_lesson_flag (u courseId lessonId : string) (ops : list op) :
  forall (db : Db) (st : State) (db' : Db) (st' : State),
  db_wf db -> progress st = fetch_progress db u courseId ->
  Forall (fun o => match o with
                   | OpToggle l _ _ => l <> lessonId
                   | OpMark _ _ => True
                   end) ops ->
  run_ops db st (Some u) courseId ops = (db', st') ->
  isLessonCompleted (progress st') lessonId = isLessonCompleted (progress st) lessonId.
Proof.
  induction ops as [|o ops IH]; intros db st db' st' Hwf Hst Hall H;
    cbn [run_ops] in H.
  - injection H as <- <-; reflexivity.
  - inversion Hall as [|? ? Ho Hall']; subst.
    destruct o as [l now newId|now newId].
    + destruct (toggleLessonCompletion db st (Some u) courseId l now newId)
        as [db1 st1] eqn:E.
      destruct (toggle_invariant _ _ _ _ _ _ _ _ _ Hwf Hst E) as [Hwf1 Hst1].
      rewrite (IH db1 st1 db' st' Hwf1 Hst1 Hall' H).
      exact (toggle_other_lesson _ _ _ _ _ _ _ _ _ _ Hwf Hst Ho E).
    + destruct (markCourseCompleted db st (Some u) courseId now newId)
        as [db1 st1] eqn:E.
      destruct (mark_invariant _ _ _ _ _ _ _ _ Hwf Hst E) as [Hwf1 [Hst1 _]].
      rewrite (IH db1 st1 db' st' Hwf1 Hst1 Hall' H).
      exact (mark_lesson_flag _ _ _ _ _ _ _ _ _ Hwf Hst E).
Qed.

Lemma run_ops_lesson_flag_witness :
  isLessonCompleted
    (progress (snd (run_ops (ex_db [ex_done]) (ex_page (ex_db [ex_done]))
       (Some "u1"%string) "c1" [OpToggle "l2" 5 "p2"; OpMark 6 "p3"]))) "l1"
  = isLessonCompleted (progress (ex_page (ex_db [ex_done]))) "l1".
Proof.
  refine (run_ops_lesson_flag "u1" "c1" "l1" [OpToggle "l2" 5 "p2"; OpMark 6 "p3"]
           (ex_db [ex_done]) (ex_page (ex_db [ex_done])) _ _ _ _ _
           (surjective_pairing _)).
  - solve_db_wf.
  - reflexivity.
  - repeat constructor; discriminate.
Defined.

(** ** Counting completed lessons *)

Lemma count_eq_notin (L : list Lesson.t) (g h : string -> bool) (k : string) :
  (forall s, s <> k -> g s = h s) -> ~ In k (map Lesson.id L) ->
  List.length (filter (fun l => h (Lesson.id l)) L) =
  List.length (filter (fun l => g (Lesson.id l)) L).
Proof.
  intros Hgh; induction L as [|l L IH]; simpl; [reflexivity|].
  intros Hn; rewrite (Hgh (Lesson.id l)) by (intro E; apply Hn; now left).
  destruct (h (Lesson.id l)); simpl; rewrite IH by tauto; reflexivity.
Qed.

Lemma count_flip (L : list Lesson.t) (g h : string -> bool) (k : string) :
  NoDup (map Lesson.id L) -> In k (map Lesson.id L) ->
  (forall s, s <> k -> g s = h s) ->
  (List.length (filter (fun l => h (Lesson.id l)) L) + (if g k then 1 else 0) =
   List.length (filter (fun l => g (Lesson.id l)) L) + (if h k then 1 else 0))%nat.
Proof.
  intros Hnd Hin Hgh; induction L as [|l L IH]; [destruct Hin|].
  simpl in Hnd, Hin |- *; inversion Hnd as [|? ? Hnin Hnd']; subst.
  destruct (String.eqb_spec (Lesson.id l) k) as [E|E].
  - subst k; pose proof (count_eq_notin L g h (Lesson.id l) Hgh Hnin) as Hc.
    destruct (g (Lesson.id l)), (h (Lesson.id l)); simpl; lia.
  - destruct Hin as [Hin|Hin]; [contradiction|].
    rewrite (Hgh (Lesson.id l) E).
    specialize (IH Hnd' Hin).
    destruct (h (Lesson.id l)); simpl; lia.
Qed.

(** A toggle on a page read from the store, with pairwise distinct lesson
    references and a fresh id for a possible insert, flips the lesson's
    flag. *)
Lemma toggle_flips (db : Db) (st : State) (u courseId lessonId : string)
    (now : Z) (newId : string) (db' : Db) (st' : State) :
  db_wf db -> progress st = fetch_progress db u courseId ->
  NoDup (map UserProgress.lesson_id (progress st)) ->
  ~ In newId (map UserProgress.id (user_progress db)) ->
  toggleLessonCompletion db st (Some u) courseId lessonId now newId = (db', st') ->
  isLessonCompleted (progress st') lessonId = negb (isLessonCompleted (progress st) lessonId).
Proof.
  intros Hwf Hst Hnd Hfresh H.
  pose proof (nodup_keys_at_most_one _ lessonId Hnd) as Hone.
  destruct (find (fun p => opt_str_eqb (UserProgress.lesson_id p) (Some lessonId))
                 (progress st)) as [r|] eqn:Hf.
  - apply find_some in Hf as [Hr Hl]; apply opt_str_eqb_some in Hl.
    destruct (toggle_existing _ _ _ _ _ _ _ _ _ r Hwf Hst Hone Hr Hl H) as [_ ->].
    rewrite (isLessonCompleted_one _ _ r Hone Hr Hl).
    rewrite (isLessonCompleted_one _ lessonId
               (patch_at (UserProgress.id r) (toggle_patch (UserProgress.completed r) now) r)).
    + rewrite patch_at_self; reflexivity.
    + apply at_most_one_map; [apply patch_lesson|exact Hone].
    + now apply in_map.
    + rewrite patch_lesson; exact Hl.
  - assert (Hn : forall r, In r (progress st) ->
                   UserProgress.lesson_id r <> Some lessonId).
    { intros r Hr Hl; apply (find_none _ _ Hf) in Hr.
      rewrite Hl in Hr; simpl in Hr; now rewrite String.eqb_refl in Hr. }
    destruct (toggle_absent _ _ _ _ _ _ _ _ _ Hwf Hst Hn Hfresh H) as [_ ->].
    rewrite (isLessonCompleted_none _ _ Hn); unfold isLessonCompleted.
    rewrite existsb_app; simpl; rewrite String.eqb_refl; simpl.
    apply orb_true_r.
Qed.

(** X8: on a page read from the store, whose records have pairwise
    distinct lesson references, a toggle of a lesson of the list [L] (ids
    unique) that writes (the record exists, or the new id is free) flips
    that lesson's flag and moves the number of completed lessons of [L]
    that [calculateProgress] counts by exactly one, up or down. *)
Theorem toggle_completed_count (db : Db) (st : State) (u courseId lessonId : string)
    (now : Z) (newId : string) (db' : Db) (st' : State) (L : list Lesson.t) :
  db_wf db -> progress st = fetch_progress db u courseId ->
  NoDup (map UserProgress.lesson_id (progress st)) ->
  ~ In newId (map UserProgress.id (user_progress db)) ->
  NoDup (map Lesson.id L) -> In lessonId (map Lesson.id L) ->
  toggleLessonCompletion db st (Some u) courseId lessonId now newId = (db', st') ->
  isLessonCompleted (progress st') lessonId = negb (isLessonCompleted (progress st) lessonId) /\
  (if isLessonCompleted (progress st) lessonId
   then (completed_count L (progress st') + 1 = completed_count L (progress st))%nat
   else completed_count L (progress st') = (completed_count L (progress st) + 1)%nat).
Proof.
  intros Hwf Hst Hnd Hfresh HndL HinL H.
  pose proof (toggle_flips _ _ _ _ _ _ _ _ _ Hwf Hst Hnd Hfresh H) as Hflip.
  split; [exact Hflip|].
  pose proof (count_flip L (isLessonCompleted (progress st))
                (isLessonCompleted (progress st')) lessonId HndL HinL) as Hc.
  unfold completed_count; rewrite Hflip in Hc.
  assert (Hgh : forall s, s <> lessonId ->
            isLessonCompleted (progress st) s = isLessonCompleted (progress st') s).
  { intros s Hs; symmetry.
    exact (toggle_other_lesson _ _ _ _ _ _ _ _ _ s Hwf Hst (fun E => Hs (eq_sym E)) H). }
  specialize (Hc Hgh).
  destruct (isLessonCompleted (progress st) lessonId); simpl in Hc; lia.
Qed.

Lemma toggle_completed_count_witness :
  let db := ex_db [ex_done] in
  let st := ex_page db in
  isLessonCompleted
    (progress (snd (toggleLessonCompletion db st (Some "u1"%string) "c1" "l2" 5 "p2"))) "l2"
  = negb (isLessonCompleted (progress st) "l2").
Proof.
  cbv zeta.
  refine (proj1 (toggle_completed_count (ex_db [ex_done]) (ex_page (ex_db [ex_done]))
           "u1" "c1" "l2" 5 "p2" _ _ [ex_lesson1; ex_lesson2] _ _ _ _ _ _
           (surjective_pairing _))).
  - solve_db_wf.
  - reflexivity.
  - simpl; repeat constructor; simpl; tauto.
  - simpl; intuition discriminate.
  - simpl; repeat constructor; simpl; intuition discriminate.
  - simpl; tauto.
Defined.

(** ** The percentage at both ends *)

Lemma div_eucl_pair (a b : Z) : Z.div_eucl a b = (a / b, a mod b).
Proof. unfold Z.div, Z.modulo; destruct (Z.div_eucl a b); reflexivity. Qed.

(** A finite positive double divided by itself is exactly [1]. *)
Lemma prim_div_self (m : positive) (e : Z) :
  SF64div (S754_finite false m e) (S754_finite false m e) = Prim2SF 1%float.
Proof.
  unfold SF64div, SFdiv.
  assert (Hc : SFdiv_core_binary prec emax (Z.pos m) e (Z.pos m) e
               = (2 ^ 53, -53, loc_Exact)).
  { unfold SFdiv_core_binary; cbv zeta.
    rewrite !Z.sub_diag.
    change (Z.min (fexp prec emax 0) 0) with (-53).
    change (0 - -53) with 53; cbn iota.
    rewrite Z.shiftl_mul_pow2 by lia.
    rewrite div_eucl_pair.
    rewrite Z.mul_comm, Z.div_mul, Z.mod_mul by lia.
    unfold new_location, new_location_even, new_location_odd.
    destruct (Z.even (Z.pos m)); reflexivity. }
  rewrite Hc; vm_compute; reflexivity.
Qed.

Lemma forallb_filter_length {A} (P : A -> bool) (l : list A) :
  forallb P l = true -> List.length (filter P l) = List.length l.
Proof.
  induction l as [|x l IH]; simpl; [reflexivity|].
  intros H; apply andb_true_iff in H as [-> H]; simpl; now rewrite IH.
Qed.

Lemma forallb_negb_filter_length {A} (P : A -> bool) (l : list A) :
  forallb (fun x => negb (P x)) l = true -> List.length (filter P l) = 0%nat.
Proof.
  induction l as [|x l IH]; simpl; [reflexivity|].
  intros H; apply andb_true_iff in H as [Hx H].
  apply negb_true_iff in Hx; rewrite Hx; exact (IH H).
Qed.

(** X9: for a non-empty lesson list a JavaScript array can hold, the page
    shows exactly [100] when every lesson is completed and exactly [0] when
    none is; the doubles [(n / n) * 100] and [(0 / n) * 100] are exact. *)
Theorem calculateProgress_ends (lessons : list Lesson.t)
    (progress : list UserProgress.t) :
  lessons <> [] -> Z.of_nat (List.length lessons) < 2 ^ 32 ->
  (forallb (fun lesson => isLessonCompleted progress (Lesson.id lesson)) lessons = true ->
   calculateProgress lessons progress = 100) /\
  (forallb (fun lesson => negb (isLessonCompleted progress (Lesson.id lesson))) lessons = true ->
   calculateProgress lessons progress = 0).
Proof.
  intros Hne Hn; unfold calculateProgress.
  destruct (Nat.eqb_spec (List.length lessons) 0) as [E|E].
  { destruct lessons; [contradiction|discriminate]. }
  assert (Hb : Z.of_nat (List.length lessons) < 2 ^ 53)
    by (apply (Z.lt_trans _ (2 ^ 32)); [exact Hn|reflexivity]).
  destruct (js_length_exact (List.length lessons) ltac:(lia) Hb) as [m [e [Hm _]]].
  split; intro Hall.
  - rewrite (forallb_filter_length _ _ Hall).
    unfold math_round; rewrite mul_spec, div_spec, Hm, prim_div_self.
    vm_compute; reflexivity.
  - rewrite (forallb_negb_filter_length _ _ Hall).
    unfold math_round; rewrite mul_spec, div_spec, Hm.
    assert (H0 : Prim2SF (js_length 0) = S754_zero false) by reflexivity.
    rewrite H0; vm_compute; reflexivity.
Qed.

Lemma calculateProgress_ends_witness :
  calculateProgress (ex_lessons 3) (ex_records 3) = 100.
Proof.
  apply (calculateProgress_ends (ex_lessons 3) (ex_records 3)).
  - discriminate.
  - apply Z.ltb_lt; reflexivity.
  - reflexivity.
Defined.

(** ** Loading and rendering the course page *)

Section Ordering.

Lemma insert_by_order_perm (l : Lesson.t) (ls : list Lesson.t) :
    Permutation (insert_by_order l ls) (l :: ls).
  Proof.
    induction ls as [|x ls IH]; simpl; [reflexivity|].
    destruct (Lesson.order_number l <=? Lesson.order_number x); [reflexivity|].
    rewrite IH; apply perm_swap.
  Qed.

Lemma order_by_number_perm (ls : list Lesson.t) : Permutation (order_by_number ls) ls.
  Proof.
    induction ls as [|x ls IH]; simpl; [reflexivity|].
    rewrite insert_by_order_perm, IH; reflexivity.
  Qed.

Lemma insert_by_order_hd (x l : Lesson.t) (ls : list Lesson.t) :
    HdRel (fun a b => Lesson.order_number a <= Lesson.order_number b) x ls ->
    Lesson.order_number x <= Lesson.order_number l ->
    HdRel (fun a b => Lesson.order_number a <= Lesson.order_number b) x
          (insert_by_order l ls).
  Proof.
    intros Hd Hx; destruct ls as [|y ls]; simpl; [constructor; exact Hx|].
    destruct (Lesson.order_number l <=? Lesson.order_number y); constructor;
      [exact Hx|inversion Hd; assumption].
  Qed.

Lemma insert_by_order_sorted (l : Lesson.t) (ls : list Lesson.t) :
    Sorted (fun a b => Lesson.order_number a <= Lesson.order_number b) ls ->
    Sorted (fun a b => Lesson.order_number a <= Lesson.order_number b)
           (insert_by_order l ls).
  Proof.
    induction ls as [|x ls IH]; intros Hs; simpl; [repeat constructor|].
    destruct (Z.leb_spec (Lesson.order_number l) (Lesson.order_number x)) as [Hle|Hgt].
    - constructor; [exact Hs|constructor; exact Hle].
    - inversion Hs as [|? ? Hs' Hd]; subst.
      constructor; [exact (IH Hs')|].
      apply insert_by_order_hd; [exact Hd|lia].
  Qed.

Lemma order_by_number_sorted (ls : list Lesson.t) :
    Sorted (fun a b => Lesson.order_number a <= Lesson.order_number b)
           (order_by_number ls).
  Proof.
    induction ls as [|x ls IH]; simpl; [constructor|].
    exact (insert_by_order_sorted x _ IH).
  Qed.

Lemma insert_by_created_desc_perm (c : Course.t) (cs : list Course.t) :
    Permutation (insert_by_created_desc c cs) (c :: cs).
  Proof.
    induction cs as [|x cs IH]; simpl; [reflexivity|].
    destruct (Course.created_at x <=? Course.created_at c); [reflexivity|].
    rewrite IH; apply perm_swap.
  Qed.

Lemma order_by_created_desc_perm (cs : list Course.t) :
    Permutation (order_by_created_desc cs) cs.
  Proof.
    induction cs as [|x cs IH]; simpl; [reflexivity|].
    rewrite insert_by_created_desc_perm, IH; reflexivity.
  Qed.

Lemma insert_by_created_desc_hd (x c : Course.t) (cs : list Course.t) :
    HdRel (fun a b => Course.created_at b <= Course.created_at a) x cs ->
    Course.created_at c <= Course.created_at x ->
    HdRel (fun a b => Course.created_at b <= Course.created_at a) x
          (insert_by_created_desc c cs).
  Proof.
    intros Hd Hx; destruct cs as [|y cs]; simpl; [constructor; exact Hx|].
    destruct (Course.created_at y <=? Course.created_at c); constructor;
      [exact Hx|inversion Hd; assumption].
  Qed.

Lemma insert_by_created_desc_sorted (c : Course.t) (cs : list Course.t) :
    Sorted (fun a b => Course.created_at b <= Course.created_at a) cs ->
    Sorted (fun a b => Course.created_at b <= Course.created_at a)
           (insert_by_created_desc c cs).
  Proof.
    induction cs as [|x cs IH]; intros Hs; simpl; [repeat constructor|].
    destruct (Z.leb_spec (Course.created_at x) (Course.created_at c)) as [Hle|Hgt].
    - constructor; [exact Hs|constructor; exact Hle].
    - inversion Hs as [|? ? Hs' Hd]; subst.
      constructor; [exact (IH Hs')|].
      apply insert_by_created_desc_hd; [exact Hd|lia].
  Qed.

Lemma order_by_created_desc_sorted (cs : list Course.t) :
    Sorted (fun a b => Course.created_at b <= Course.created_at a)
           (order_by_created_desc cs).
  Proof.
    induction cs as [|x cs IH]; simpl; [constructor|].
    exact (insert_by_created_desc_sorted x _ IH).
  Qed.
End Ordering.

Lemma course_filter_iff (db : Db) (courseId : string) (c : Course.t) :
  In c (filter (fun c => String.eqb (Course.id c) courseId) (courses db)) <->
  In c (courses db) /\ Course.id c = courseId.
Proof. rewrite filter_In, String.eqb_eq; tauto. Qed.

(** The course read of [loadCourseData] on a store with unique course ids. *)
Lemma load_course (db : Db) (user : option string) (courseId : string) (st : State) :
  db_wf db ->
  let st' := loadCourseData db user courseId st in
  loading st' = false /\ error st' = error st /\
  (forall c, course st' = Some c <-> In c (courses db) /\ Course.id c = courseId) /\
  lessons st' = order_by_number (filter (fun l => String.eqb (Lesson.course_id l) courseId)
                                        (lessons_tbl db)) /\
  progress st' = match user with
                 | Some u => fetch_progress db u courseId
                 | None => []
                 end.
Proof.
  intros [Hc _]; cbv zeta; unfold loadCourseData.
  pose proof (filter_key_le1 Course.id courseId (courses db) Hc) as Hle.
  pose proof (course_filter_iff db courseId) as Hf.
  destruct (filter _ (courses db)) as [|c0 [|c1 cs]]; simpl in Hle |- *; [| |lia].
  - split; [reflexivity|split; [reflexivity|split; [|split; reflexivity]]].
    intros c; split; [discriminate|].
    intros H; apply Hf in H; destruct H.
  - split; [reflexivity|split; [reflexivity|split; [|split; reflexivity]]].
    intros c; split.
    + intros E; injection E as <-; apply Hf; now left.
    + intros H; apply Hf in H as [<-|[]]; reflexivity.
Qed.

(** X10: on a store with unique course ids, [loadCourseData] for a
    signed-in account clears the loading flag and keeps the error message;
    the page's course is the course with that id, if any; its lessons are
    exactly the course's lessons, in ascending [order_number]; and its
    progress is exactly the account's records of that course. *)
Theorem loadCourseData_spec (db : Db) (u courseId : string) (st : State) :
  db_wf db ->
  let st' := loadCourseData db (Some u) courseId st in
  loading st' = false /\ error st' = error st /\
  (forall c, course st' = Some c <-> In c (courses db) /\ Course.id c = courseId) /\
  Sorted (fun a b => Lesson.order_number a <= Lesson.order_number b) (lessons st') /\
  Permutation (lessons st')
              (filter (fun l => String.eqb (Lesson.course_id l) courseId) (lessons_tbl db)) /\
  (forall r, In r (progress st') <->
     In r (user_progress db) /\ UserProgress.user_id r = u /\
     UserProgress.course_id r = courseId).
Proof.
  intros Hwf; cbv zeta.
  destruct (load_course db (Some u) courseId st Hwf) as [Hl [He [Hc [Hls Hp]]]].
  split; [exact Hl|split; [exact He|split; [exact Hc|split; [|split]]]].
  - rewrite Hls; apply order_by_number_sorted.
  - rewrite Hls; apply order_by_number_perm.
  - intros r; rewrite Hp; split.
    + intros Hr; apply in_fetch in Hr; exact Hr.
    + intros Hr; apply in_fetch; exact Hr.
Qed.

Lemma loadCourseData_spec_witness :
  Sorted (fun a b => Lesson.order_number a <= Lesson.order_number b)
         (lessons (loadCourseData (mkDb [ex_course] [ex_lesson2; ex_lesson1] [ex_done])
                     (Some "u1"%string) "c1" initial_state)).
Proof.
  apply (loadCourseData_spec (mkDb [ex_course] [ex_lesson2; ex_lesson1] [ex_done])
           "u1" "c1" initial_state).
  solve_db_wf.
Defined.

Lemma lesson_rows_spec (P : list UserProgress.t) (ls : list Lesson.t) :
  forall i,
  map row_number (lesson_rows P i ls) = seq (i + 1) (List.length ls) /\
  map row_key (lesson_rows P i ls) = map Lesson.id ls /\
  map row_completed (lesson_rows P i ls) =
    map (fun l => isLessonCompleted P (Lesson.id l)) ls.
Proof.
  induction ls as [|l ls IH]; intros i; simpl; [auto|].
  destruct (IH (S i)) as [H1 [H2 H3]].
  rewrite H1, H2, H3; repeat split.
Qed.

(** X11: after the page of a signed-in account has loaded (store with
    unique course ids), a missing course shows the message "Course not
    found"; an existing one shows its view, whose lesson entries are
    numbered 1, 2, ..., n in the order of the page's lessons, each with
    its lesson's completed flag, and whose completion button is disabled
    exactly when the "Completed" badge is shown, i.e. when the course is
    completed. *)
Theorem render_loaded (db : Db) (u courseId : string) :
  db_wf db ->
  let st := loadCourseData db (Some u) courseId initial_state in
  ((forall c, In c (courses db) -> Course.id c <> courseId) ->
   render st = PageError "Course not found") /\
  (forall c, In c (courses db) -> Course.id c = courseId ->
   exists v, render st = PageCourse v /\ v_title v = Course.title c /\
     map row_number (v_rows v) = seq 1 (List.length (lessons st)) /\
     map row_key (v_rows v) = map Lesson.id (lessons st) /\
     map row_completed (v_rows v) =
       map (fun l => isLessonCompleted (progress st) (Lesson.id l)) (lessons st) /\
     v_percentage v = calculateProgress (lessons st) (progress st) /\
     v_button_disabled v = v_completed_badge v /\
     v_completed_badge v = isCourseCompleted (progress st)).
Proof.
  intros Hwf; cbv zeta.
  destruct (load_course db (Some u) courseId initial_state Hwf) as [Hl [He [Hc _]]].
  simpl in He; split.
  - intros Hn; unfold render; rewrite Hl, He.
    destruct (course _) as [c|] eqn:E; [|reflexivity].
    exfalso; destruct (proj1 (Hc c) eq_refl) as [Hin Hid]; exact (Hn c Hin Hid).
  - intros c Hin Hid; unfold render; rewrite Hl, He.
    assert (E : course (loadCourseData db (Some u) courseId initial_state) = Some c)
      by (apply Hc; auto).
    rewrite E; simpl.
    eexists; split; [reflexivity|]; simpl.
    destruct (lesson_rows_spec (progress (loadCourseData db (Some u) courseId initial_state))
                (lessons (loadCourseData db (Some u) courseId initial_state)) 0)
      as [H1 [H2 H3]].
    repeat split; assumption.
Qed.

Lemma render_loaded_witness :
  render (loadCourseData (ex_db [ex_done]) (Some "u1"%string) "c9" initial_state)
  = PageError "Course not found".
Proof.
  apply (render_loaded (ex_db [ex_done]) "u1" "c9"); [solve_db_wf|].
  intros c [<-|[]]; discriminate.
Defined.

(** ** The catalogue page *)

Lemma select_courses (cl : Rls.caller) (tbl : list Course.t) :
  Rls.select courses_policies cl tbl =
    match Rls.role_of cl with Rls.authenticated => tbl | Rls.anon => [] end.
Proof.
  unfold Rls.select, Rls.using_ok, Rls.applies; simpl.
  destruct (Rls.role_of cl); simpl; [apply filter_const_false | apply filter_const_true].
Qed.

(** X12: the catalogue page of a signed-in caller shows the empty-catalogue
    message when there is no course, and otherwise one card per course of
    the table, each exactly once, newest [created_at] first; an anonymous
    caller always gets the empty message, the policy hiding every course. *)
Theorem home_catalogue (db : Db) (cl : Rls.caller) :
  let hv := render_home (loadCourses db cl home_initial) in
  match Rls.role_of cl with
  | Rls.anon => hv = HomeEmpty
  | Rls.authenticated =>
    (courses db = [] /\ hv = HomeEmpty) \/
    (exists cs, hv = HomeGrid cs /\ Permutation cs (courses db) /\
       Sorted (fun a b => Course.created_at b <= Course.created_at a) cs)
  end.
Proof.
  cbv zeta; unfold render_home, loadCourses; simpl.
  rewrite select_courses.
  destruct (Rls.role_of cl); [reflexivity|].
  destruct (courses db) as [|c cs] eqn:E; [left; split; reflexivity|right].
  pose proof (order_by_created_desc_perm (c :: cs)) as Hp.
  destruct (order_by_created_desc (c :: cs)) as [|c' cs'] eqn:Eo.
  - apply Permutation_nil in Hp; discriminate.
  - exists (c' :: cs'); split; [reflexivity|split; [exact Hp|]].
    rewrite <- Eo; apply order_by_created_desc_sorted.
Qed.

(** ** The difficulty badge *)

Lemma in_methods (d : string) :
  existsb (String.eqb d) object_prototype_methods = true <-> In d object_prototype_methods.
Proof.
  rewrite existsb_exists; split.
  - intros [x [Hx E]]; apply String.eqb_eq in E; now subst.
  - intros H; exists d; split; [exact H|apply String.eqb_refl].
Qed.

(** X13: the badge colour of [CourseCard] is one of the three colour
    classes exactly when the difficulty is not the name of a property
    [Object.prototype] gives every object literal ([__proto__],
    [constructor], [toString], ...); for those names the lookup returns
    [Object.prototype] or one of its methods, which is truthy, so the
    beginner fallback is not taken.  Any other difficulty than
    "intermediate" and "advanced" gets the beginner colour. *)
Theorem difficultyColor_spec (d : string) :
  ((exists s, difficultyColor d = JsString s /\ In s [green_badge; yellow_badge; red_badge]) <->
   ~ In d ("__proto__"%string :: object_prototype_methods)) /\
  (~ In d ("__proto__"%string :: object_prototype_methods) ->
   d <> "intermediate"%string -> d <> "advanced"%string ->
   difficultyColor d = JsString green_badge).
Proof.
  unfold difficultyColor, difficultyColors_get.
  destruct (String.eqb_spec d "beginner") as [E1|E1];
    [subst; simpl; split; [split; [intros _; intros [H|H]; [discriminate|]; simpl in H; intuition discriminate
                                  | intros _; eexists; split; [reflexivity|simpl; auto]]
                          | reflexivity]|].
  destruct (String.eqb_spec d "intermediate") as [E2|E2];
    [subst; simpl; split; [split; [intros _; intros [H|H]; [discriminate|]; simpl in H; intuition discriminate
                                  | intros _; eexists; split; [reflexivity|simpl; auto]]
                          | intros _ H; contradiction]|].
  destruct (String.eqb_spec d "advanced") as [E3|E3];
    [subst; simpl; split; [split; [intros _; intros [H|H]; [discriminate|]; simpl in H; intuition discriminate
                                  | intros _; eexists; split; [reflexivity|simpl; auto]]
                          | intros _ _ H; contradiction]|].
  destruct (String.eqb_spec d "__proto__") as [E4|E4].
  { subst; simpl; split; [split|].
    - intros [s [H _]]; discriminate.
    - intros H; exfalso; apply H; now left.
    - intros H; exfalso; apply H; now left. }
  destruct (existsb (String.eqb d) object_prototype_methods) eqn:E5.
  - apply in_methods in E5; simpl; split; [split|].
    + intros [s [H _]]; discriminate.
    + intros H; exfalso; apply H; now right.
    + intros H; exfalso; apply H; now right.
  - assert (Hn : ~ In d ("__proto__"%string :: object_prototype_methods)).
    { intros [H|H]; [exact (E4 (eq_sym H))|].
      apply in_methods in H; congruence. }
    simpl; split; [split|].
    + intros _; exact Hn.
    + intros _; eexists; split; [reflexivity|simpl; auto].
    + intros _ _ _; reflexivity.
Qed.

(** ** Screen selection *)

Lemma app_run_app (s : AppState) (l1 l2 : list app_event) :
  app_run s (l1 ++ l2) = app_run (app_run s l1) l2.
Proof. revert s; induction l1 as [|e l1 IH]; intros s; simpl; auto. Qed.

Lemma app_run_auth_selected (s : AppState) (evs : list app_event) :
  forallb is_auth_event evs = true ->
  selectedCourseId (app_run s evs) = selectedCourseId s.
Proof.
  revert s; induction evs as [|ev evs IH]; intros s H; simpl in *; [reflexivity|].
  apply andb_true_iff in H as [Hev H].
  destruct ev; try discriminate; rewrite IH by exact H; reflexivity.
Qed.

(** X14: the selected course outlives the session: while a course page is
    shown, any sequence of sign-outs and sign-ins (auth changes) that ends
    with some account [v] signed in, whoever it is, shows the same course
    page again; [AppContent] never resets [selectedCourseId]. *)
Theorem course_page_survives_auth (s : AppState) (c v : string) (evs : list app_event) :
  AppContent s = ScreenCourseDetail c ->
  forallb is_auth_event evs = true ->
  AppContent (app_run s (evs ++ [AuthChanged (Some v) false])) = ScreenCourseDetail c.
Proof.
  intros Hs Hevs; rewrite app_run_app; simpl.
  unfold AppContent in Hs |- *; simpl.
  rewrite (app_run_auth_selected s evs Hevs).
  destruct (app_loading s); [discriminate|].
  destruct (app_user s); [|destruct (showLogin s); discriminate].
  exact Hs.
Qed.

Lemma course_page_survives_auth_witness :
  AppContent (app_run (mkApp (Some "u1"%string) false true (Some "c1"%string))
                [AuthChanged None false; AuthChanged None true;
                 AuthChanged (Some "u2"%string) false])
  = ScreenCourseDetail "c1".
Proof.
  exact (course_page_survives_auth (mkApp (Some "u1"%string) false true (Some "c1"%string))
           "c1" "u2" [AuthChanged None false; AuthChanged None true] eq_refl eq_refl).
Defined.

(** X15: from the catalogue, choosing a course with a non-empty id opens
    its page and the back button returns to the catalogue; a card whose id
    is the empty string opens nothing, the catalogue staying on screen,
    since [''] is falsy for [if (selectedCourseId)]. *)
Theorem select_back_roundtrip (s : AppState) (c : string) :
  AppContent s = ScreenHome ->
  (c <> EmptyString ->
   AppContent (app_run s [SelectCourse c]) = ScreenCourseDetail c /\
   AppContent (app_run s [SelectCourse c; BackPressed]) = ScreenHome) /\
  AppContent (app_run s [SelectCourse EmptyString]) = ScreenHome.
Proof.
  intros Hs; simpl; unfold app_step; rewrite Hs.
  unfold AppContent in Hs |- *; simpl.
  destruct (app_loading s); [discriminate|].
  destruct (app_user s); [|destruct (showLogin s); discriminate].
  split; [|reflexivity].
  intros Hc; apply String.eqb_neq in Hc; rewrite Hc; split; reflexivity.
Qed.

Lemma select_back_roundtrip_witness :
  AppContent (app_run (mkApp (Some "u1"%string) false true None)
                [SelectCourse "c1"; BackPressed]) = ScreenHome.
Proof.
  exact (proj2 (proj1 (select_back_roundtrip (mkApp (Some "u1"%string) false true None)
                         "c1" eq_refl) ltac:(discriminate))).
Defined.

(** ** Clicks in flight *)

Lemma toggle_insert_fresh (db : Db) (st : State) (u courseId lessonId : string)
    (now : Z) (newId : string) :
  find (fun p => opt_str_eqb (UserProgress.lesson_id p) (Some lessonId)) (progress st) = None ->
  ~ In newId (map UserProgress.id (user_progress db)) ->
  fst (toggleLessonCompletion db st (Some u) courseId lessonId now newId) =
  set_user_progress db
    (user_progress db ++ [UserProgress.mk newId u courseId (Some lessonId) true (Some now) now now]).
Proof.
  intros Hf Hn; unfold toggleLessonCompletion; rewrite Hf.
  rewrite (progress_insert_ok u (UserProgress.mk newId u courseId (Some lessonId) true
                                   (Some now) now now) _ eq_refl Hn).
  reflexivity.
Qed.

Lemma mark_insert_fresh (db : Db) (st : State) (u courseId : string)
    (now : Z) (newId : string) :
  find (fun p => is_null (UserProgress.lesson_id p)) (progress st) = None ->
  ~ In newId (map UserProgress.id (user_progress db)) ->
  fst (markCourseCompleted db st (Some u) courseId now newId) =
  set_user_progress db
    (user_progress db ++ [UserProgress.mk newId u courseId None true (Some now) now now]).
Proof.
  intros Hf Hn; unfold markCourseCompleted; rewrite Hf.
  rewrite (progress_insert_ok u (UserProgress.mk newId u courseId None true
                                   (Some now) now now) _ eq_refl Hn).
  reflexivity.
Qed.

(** X16: the page does not serialise its writes: two clicks on the same
    lesson's button, both handled before the first reload reaches the
    page, decide on the same page state; when that state has no record of
    the lesson (and the new ids are free), both insert one, leaving two
    completed records of the lesson. Two clicks on the course button alike
    leave two course-completion records. *)
Theorem concurrent_clicks_duplicate (db : Db) (st : State) (u courseId lessonId : string)
    (now1 now2 : Z) (id1 id2 : string) :
  id1 <> id2 -> ~ In id1 (map UserProgress.id (user_progress db)) ->
  ~ In id2 (map UserProgress.id (user_progress db)) ->
  (find (fun p => opt_str_eqb (UserProgress.lesson_id p) (Some lessonId)) (progress st) = None ->
   user_progress
     (fst (toggleLessonCompletion
             (fst (toggleLessonCompletion db st (Some u) courseId lessonId now1 id1))
             st (Some u) courseId lessonId now2 id2)) =
   user_progress db ++
     [UserProgress.mk id1 u courseId (Some lessonId) true (Some now1) now1 now1;
      UserProgress.mk id2 u courseId (Some lessonId) true (Some now2) now2 now2]) /\
  (find (fun p => is_null (UserProgress.lesson_id p)) (progress st) = None ->
   user_progress
     (fst (markCourseCompleted
             (fst (markCourseCompleted db st (Some u) courseId now1 id1))
             st (Some u) courseId now2 id2)) =
   user_progress db ++
     [UserProgress.mk id1 u courseId None true (Some now1) now1 now1;
      UserProgress.mk id2 u courseId None true (Some now2) now2 now2]).
Proof.
  intros Hne H1 H2.
  assert (H2' : forall row, UserProgress.id row = id1 ->
            ~ In id2 (map UserProgress.id (user_progress db ++ [row]))).
  { intros row Hr; rewrite map_app, in_app_iff; simpl; intros [H|[H|[]]];
      [exact (H2 H)|congruence]. }
  split; intros Hf.
  - rewrite (toggle_insert_fresh db st u courseId lessonId now1 id1 Hf H1).
    rewrite (toggle_insert_fresh
               (set_user_progress db (user_progress db ++
                  [UserProgress.mk id1 u courseId (Some lessonId) true (Some now1) now1 now1]))
               st u courseId lessonId now2 id2 Hf
               (H2' (UserProgress.mk id1 u courseId (Some lessonId) true (Some now1) now1 now1)
                    eq_refl)).
    simpl; rewrite <- app_assoc; reflexivity.
  - rewrite (mark_insert_fresh db st u courseId now1 id1 Hf H1).
    rewrite (mark_insert_fresh
               (set_user_progress db (user_progress db ++
                  [UserProgress.mk id1 u courseId None true (Some now1) now1 now1]))
               st u courseId now2 id2 Hf
               (H2' (UserProgress.mk id1 u courseId None true (Some now1) now1 now1) eq_refl)).
    simpl; rewrite <- app_assoc; reflexivity.
Qed.

Lemma concurrent_clicks_duplicate_witness :
  user_progress
    (fst (toggleLessonCompletion
            (fst (toggleLessonCompletion (ex_db []) (ex_page (ex_db [])) (Some "u1"%string)
                    "c1" "l1" 5 "p5"))
            (ex_page (ex_db [])) (Some "u1"%string) "c1" "l1" 6 "p6")) =
  [UserProgress.mk "p5" "u1" "c1" (Some "l1"%string) true (Some 5) 5 5;
   UserProgress.mk "p6" "u1" "c1" (Some "l1"%string) true (Some 6) 6 6].
Proof.
  refine (proj1 (concurrent_clicks_duplicate (ex_db []) (ex_page (ex_db [])) "u1" "c1" "l1"
                   5 6 "p5" "p6" ltac:(discriminate) ltac:(simpl; tauto) ltac:(simpl; tauto))
                ltac:(reflexivity)).
Defined.
